(** * EmulatorLauncher: the emulator registry and the game library

    A shallow embedding of [emulators.py] and of the library logic of
    [emulator_launcher.py] (catalog rebuild, add-game, version check, sort).

    Conventions.
    - A Python [str] is a [string]: the UTF-8 bytes of the text.  Bytewise
      lexicographic order on UTF-8 coincides with Python's code point order,
      so [String.leb] is the order [list.sort] uses on names.
    - Python exceptions are values of [exn]; a computation that may raise
      returns a [result].  Code that mutates the application or the disk
      runs in the monad [M], in which the state reached when an exception is
      raised is kept, as it is in Python.
    - Widgets, the hover effect and the drawing of pictures are
      presentation and are left out.  Of the pictures, what is kept is
      whether PIL opens the [icon.png] of a game, since [Game.__init__]
      raises when it does not; the [icon] of an emulator is not modelled. *)

From Stdlib Require Import List String Ascii Bool Arith NArith Lia Permutation.
Import ListNotations.
Open Scope string_scope.
Open Scope list_scope.

(** ** Exceptions and results *)

Inductive exn : Type :=
| IndexError
| KeyError
| ConnectionError
| JSONDecodeError
| FileExistsError
| FileNotFoundError
| NotADirectoryError
| IsADirectoryError
| OSError
| UnidentifiedImageError
| ValueError.

Inductive result (A : Type) : Type :=
| Ok (a : A)
| Raise (e : exn).

Arguments Ok {A} a.
Arguments Raise {A} e.

Definition rbind {A B : Type} (r : result A) (k : A -> result B) : result B :=
  match r with
  | Ok a => k a
  | Raise e => Raise e
  end.

Declare Scope result_scope.
Delimit Scope result_scope with result.
Notation "'let?' x ':=' r 'in' k" := (rbind r (fun x => k))
  (at level 10, x name, r at level 100, k at level 200) : result_scope.

(** ** Python string helpers *)

Module Py.

(** [s[1:]]. *)
Definition tail (s : string) : string :=
  match s with
  | EmptyString => EmptyString
  | String _ s' => s'
  end.

(** [l[i]] on a list: [IndexError] out of range. *)
Definition index {A : Type} (l : list A) (i : nat) : result A :=
  match nth_error l i with
  | Some a => Ok a
  | None => Raise IndexError
  end.

(** The characters [str.split()] treats as white space are the code points
    U+0009 to U+000D, U+001C to U+0020, U+0085, U+00A0, U+1680, U+2000 to
    U+200A, U+2028, U+2029, U+202F, U+205F and U+3000.  In UTF-8 the first
    ones are one byte, read by [isspace]; the others are the two bytes read
    by [isspace2] and the three bytes read by [isspace3].  A lead byte of
    UTF-8 is no continuation byte, so these bytes are found only where a
    character starts. *)
Definition isspace (c : ascii) : bool :=
  let n := nat_of_ascii c in
  (Nat.leb 9 n && Nat.leb n 13) || (Nat.leb 28 n && Nat.leb n 32).

(** U+0085 is C2 85 and U+00A0 is C2 A0. *)
Definition isspace2 (c1 c2 : ascii) : bool :=
  Nat.eqb (nat_of_ascii c1) 194
  && (Nat.eqb (nat_of_ascii c2) 133 || Nat.eqb (nat_of_ascii c2) 160).

(** U+1680 is E1 9A 80; U+2000 to U+200A are E2 80 80 to E2 80 8A; U+2028,
    U+2029 and U+202F are E2 80 A8, E2 80 A9 and E2 80 AF; U+205F is
    E2 81 9F; U+3000 is E3 80 80. *)
Definition isspace3 (c1 c2 c3 : ascii) : bool :=
  let n1 := nat_of_ascii c1 in
  let n2 := nat_of_ascii c2 in
  let n3 := nat_of_ascii c3 in
  (Nat.eqb n1 225 && Nat.eqb n2 154 && Nat.eqb n3 128)
  || (Nat.eqb n1 226 && Nat.eqb n2 128
      && ((Nat.leb 128 n3 && Nat.leb n3 138)
          || Nat.eqb n3 168 || Nat.eqb n3 169 || Nat.eqb n3 175))
  || (Nat.eqb n1 226 && Nat.eqb n2 129 && Nat.eqb n3 159)
  || (Nat.eqb n1 227 && Nat.eqb n2 128 && Nat.eqb n3 128).

(** [s.split()]: maximal runs of characters that are not white space.
    [cur] holds the run being read. *)
Fixpoint split_runs (s cur : string) : list string :=
  match s with
  | EmptyString => if String.eqb cur "" then [] else [cur]
  | String c s1 =>
      if isspace c
      then (if String.eqb cur "" then split_runs s1 "" else cur :: split_runs s1 "")
      else
        match s1 with
        | String c2 s2 =>
            if isspace2 c c2
            then (if String.eqb cur "" then split_runs s2 "" else cur :: split_runs s2 "")
            else
              match s2 with
              | String c3 s3 =>
                  if isspace3 c c2 c3
                  then (if String.eqb cur "" then split_runs s3 ""
                        else cur :: split_runs s3 "")
                  else split_runs s1 (cur ++ String c "")
              | EmptyString => split_runs s1 (cur ++ String c "")
              end
        | EmptyString => split_runs s1 (cur ++ String c "")
        end
  end.

Definition split (s : string) : list string := split_runs s "".

(** [s.split(sep)] for a one-character separator: never empty. *)
Fixpoint split_on (sep : ascii) (s : string) : list string :=
  match s with
  | EmptyString => [""]
  | String c s' =>
      if Ascii.eqb c sep then "" :: split_on sep s'
      else match split_on sep s' with
           | h :: t => String c h :: t
           | [] => [String c ""]
           end
  end.

(** [sep.join(l)]. *)
Fixpoint join (sep : string) (l : list string) : string :=
  match l with
  | [] => ""
  | [x] => x
  | x :: l' => x ++ sep ++ join sep l'
  end.

Definition startswith_slash (s : string) : bool :=
  match s with
  | String c _ => Ascii.eqb c "/"
  | EmptyString => false
  end.

Fixpoint endswith_slash (s : string) : bool :=
  match s with
  | EmptyString => false
  | String c EmptyString => Ascii.eqb c "/"
  | String _ s' => endswith_slash s'
  end.

End Py.

(** ** The disk, paths and the [os] functions the program calls

    The disk is a tree of named nodes below the root directory; a location
    is the list of names from the root.  Symbolic links, permissions and
    mount points are not modelled.  The entries of a directory are kept in a
    list whose order stands for the order in which [os.listdir] reports
    them. *)

Module Os.

#[warnings="-register-all"]
Inductive node : Type :=
| File (content : string)
| Dir (entries : list (string * node)).

Fixpoint assoc (k : string) (es : list (string * node)) : option node :=
  match es with
  | [] => None
  | (k', v) :: es' => if String.eqb k' k then Some v else assoc k es'
  end.

(** Replace the entry named [k], or add it after the others. *)
Fixpoint set (k : string) (v : node) (es : list (string * node)) : list (string * node) :=
  match es with
  | [] => [(k, v)]
  | (k', v') :: es' => if String.eqb k' k then (k, v) :: es' else (k', v') :: set k v es'
  end.

Fixpoint unset (k : string) (es : list (string * node)) : list (string * node) :=
  match es with
  | [] => []
  | (k', v') :: es' => if String.eqb k' k then unset k es' else (k', v') :: unset k es'
  end.

(** The node at a location. *)
Fixpoint get (p : list string) (n : node) : option node :=
  match p with
  | [] => Some n
  | c :: p' =>
      match n with
      | File _ => None
      | Dir es => match assoc c es with
                  | Some m => get p' m
                  | None => None
                  end
      end
  end.

(** Store [v] at a location whose parent is a directory (nothing changes
    otherwise). *)
Fixpoint put (p : list string) (v : node) (n : node) : node :=
  match p with
  | [] => v
  | c :: p' =>
      match n with
      | File _ => n
      | Dir es =>
          match p', assoc c es with
          | [], _ => Dir (set c v es)
          | _ :: _, Some m => Dir (set c (put p' v m) es)
          | _ :: _, None => n
          end
      end
  end.

(** Remove the node at a location, with everything below it. *)
Fixpoint del (p : list string) (n : node) : node :=
  match p with
  | [] => n
  | c :: p' =>
      match n with
      | File _ => n
      | Dir es =>
          match p', assoc c es with
          | [], _ => Dir (unset c es)
          | _ :: _, Some m => Dir (set c (del p' m) es)
          | _ :: _, None => n
          end
      end
  end.

Fixpoint is_prefix (p q : list string) : bool :=
  match p, q with
  | [], _ => true
  | _ :: _, [] => false
  | a :: p', b :: q' => String.eqb a b && is_prefix p' q'
  end.

Fixpoint path_eqb (p q : list string) : bool :=
  match p, q with
  | [], [] => true
  | a :: p', b :: q' => String.eqb a b && path_eqb p' q'
  | _, _ => false
  end.

(** The longest name of an entry, in bytes. *)
Definition NAME_MAX : nat := 255.

Fixpoint has_nul (s : string) : bool :=
  match s with
  | EmptyString => false
  | String c s' => Nat.eqb (nat_of_ascii c) 0 || has_nul s'
  end.

(** A name a new entry can be given: no NUL byte, at most [NAME_MAX]
    bytes. *)
Definition fits (s : string) : bool :=
  negb (has_nul s) && Nat.leb (String.length s) NAME_MAX.

(** The directories a walk from [cur] along [names] goes through exist, and
    each name is in its directory or could be given to a new entry. *)
Fixpoint dirs_along (root : node) (cur names : list string) : Prop :=
  match names with
  | [] => True
  | c :: rest =>
      (exists es, get cur root = Some (Dir es)
                  /\ (assoc c es <> None \/ fits c = true))
      /\ dirs_along root (cur ++ [c]) rest
  end.

(** Follow the components of a path from the location [cur].  Empty
    components (doubled or trailing slashes) are skipped; every other
    component is looked up in [cur], which must be a directory.  An entry
    that is there is followed.  A name that is not there is refused when no
    entry can have it: [ValueError] for a NUL byte, [OSError] (file name too
    long) above [NAME_MAX] bytes; otherwise the walk goes on to the location
    the name would have, which need not exist. *)
Fixpoint walk (root : node) (cur : list string) (comps : list string)
  : result (list string) :=
  match comps with
  | [] => Ok cur
  | c :: rest =>
      if String.eqb c "" then walk root cur rest
      else
        match get cur root with
        | Some (Dir es) =>
            if String.eqb c "." then walk root cur rest
            else if String.eqb c ".." then walk root (removelast cur) rest
            else
              match assoc c es with
              | Some _ => walk root (cur ++ [c]) rest
              | None =>
                  if has_nul c then Raise ValueError
                  else if Nat.ltb NAME_MAX (String.length c) then Raise OSError
                  else walk root (cur ++ [c]) rest
              end
        | Some (File _) => Raise NotADirectoryError
        | None => Raise FileNotFoundError
        end
  end.

Definition components (path : string) : list string := Py.split_on "/" path.

Fixpoint has_slash (s : string) : bool :=
  match s with
  | EmptyString => false
  | String c s' => Ascii.eqb c "/" || has_slash s'
  end.

(** A name an entry of a directory can have: not empty, without a slash,
    and neither [.] nor [..]. *)
Definition is_name (s : string) : bool :=
  negb (has_slash s) && negb (String.eqb s "") && negb (String.eqb s ".")
  && negb (String.eqb s "..").

(** The location a path names, from the working directory [cwd] unless the
    path is absolute. *)
Definition resolve (cwd : list string) (root : node) (path : string)
  : result (list string) :=
  if String.eqb path "" then Raise FileNotFoundError
  else walk root (if Py.startswith_slash path then [] else cwd) (components path).

(** The content of the file a path names, when it names one:
    [os.path.isfile(path)] is true exactly then. *)
Definition file_at (cwd : list string) (root : node) (path : string) : option string :=
  match resolve cwd root path with
  | Ok p => match get p root with
            | Some (File content) => Some content
            | _ => None
            end
  | Raise _ => None
  end.

(** [os.listdir(path)]. *)
Definition listdir (cwd : list string) (root : node) (path : string)
  : result (list string) :=
  (let? p := resolve cwd root path in
   match get p root with
   | Some (Dir es) => Ok (map fst es)
   | Some (File _) => Raise NotADirectoryError
   | None => Raise FileNotFoundError
   end)%result.

(** [os.mkdir(path)]: the new disk. *)
Definition mkdir (cwd : list string) (root : node) (path : string) : result node :=
  (let? p := resolve cwd root path in
   match get p root with
   | Some _ => Raise FileExistsError
   | None =>
       match get (removelast p) root with
       | Some (Dir _) => Ok (put p (Dir []) root)
       | Some (File _) => Raise NotADirectoryError
       | None => Raise FileNotFoundError
       end
   end)%result.

(** [os.rename(src, dst)]: the new disk. *)
Definition rename (cwd : list string) (root : node) (src dst : string) : result node :=
  (let? s := resolve cwd root src in
   match get s root with
   | None => Raise FileNotFoundError
   | Some moved =>
       let? d := resolve cwd root dst in
       if path_eqb s d then Ok root
       else if is_prefix s d then Raise OSError
       else
         match get (removelast d) root with
         | None => Raise FileNotFoundError
         | Some (File _) => Raise NotADirectoryError
         | Some (Dir _) =>
             match moved, get d root with
             | File _, Some (Dir _) => Raise IsADirectoryError
             | Dir _, Some (File _) => Raise NotADirectoryError
             | Dir _, Some (Dir (_ :: _)) => Raise OSError
             | _, _ => Ok (put d moved (del s root))
             end
         end
   end)%result.

(** Writing a whole file, as [Image.save(path)] does: the new disk. *)
Definition write_file (cwd : list string) (root : node) (path content : string)
  : result node :=
  (let? p := resolve cwd root path in
   match get p root with
   | Some (Dir _) => Raise IsADirectoryError
   | _ =>
       match get (removelast p) root with
       | Some (Dir _) => Ok (put p (File content) root)
       | Some (File _) => Raise NotADirectoryError
       | None => Raise FileNotFoundError
       end
   end)%result.

End Os.

(** ** [os.path] and the world outside the program *)

Module Path.

(** [posixpath.join(a, b)]. *)
Definition join2 (a b : string) : string :=
  if Py.startswith_slash b then b
  else if String.eqb a "" || Py.endswith_slash a then a ++ b
  else a ++ "/" ++ b.

(** [os.path.join(a, *p)]. *)
Definition join (a : string) (p : list string) : string := fold_left join2 p a.

(** [posixpath.normpath] on components: empty and [.] components are
    dropped, [..] removes the component before it (none at the root). *)
Definition normalize (cs : list string) : list string :=
  fold_left
    (fun acc c =>
       if String.eqb c "" || String.eqb c "." then acc
       else if String.eqb c ".." then removelast acc
       else acc ++ [c])
    cs [].

(** [os.path.abspath(path)] in the working directory [cwd]. *)
Definition abspath (cwd : list string) (path : string) : string :=
  "/" ++ Py.join "/"
    (normalize ((if Py.startswith_slash path then [] else cwd) ++ Os.components path)).

(** The suffix of [s] that starts at its last dot, if it has one. *)
Fixpoint from_last_dot (s : string) : option string :=
  match s with
  | EmptyString => None
  | String c s' =>
      match from_last_dot s' with
      | Some t => Some t
      | None => if Ascii.eqb c "." then Some s else None
      end
  end.

Fixpoint all_dots (s : string) : bool :=
  match s with
  | EmptyString => true
  | String c s' => Ascii.eqb c "." && all_dots s'
  end.

(** [os.path.splitext(p)[1]]: the extension, with its dot, of the last
    component of [p]; empty when that component has no dot or only leading
    dots before its last one. *)
Definition splitext_ext (p : string) : string :=
  let base := last (Os.components p) "" in
  match from_last_dot base with
  | None => ""
  | Some e =>
      if all_dots (substring 0 (String.length base - String.length e) base)
      then "" else e
  end.

End Path.

(** What a [requests.get] gives back: no response at all (the call raises),
    or a response, seen through the two readings the program makes of its
    body: [.json()] as an object with string fields (absent when the body is
    not JSON) and [Image.open(BytesIO(.content)).save(path)] as the bytes of
    the PNG it writes (absent when PIL raises on the body and so writes no
    file). *)
Inductive response : Type :=
| NoResponse
| Response (json : option (list (string * string))) (image : option string).

(** The world the program runs in: its working directory, the output of
    the commands it runs with [os.popen(cmd).read()], the answers to its
    HTTP requests, and what PIL makes of the bytes of a file when
    [Game.__init__] loads it as the picture of a game: [image_open] returns
    for a picture, one that [Image.open(path).resize(...)] and the
    composition after it accept, and raises otherwise.  The request headers
    are constants of the program, so an answer depends on the URL alone. *)
Record Env : Type := mkEnv {
  getcwd : list string;
  popen_read : string -> string;
  requests_get : string -> response;
  image_open : string -> result unit
}.

(** ** emulators.py *)

Module Emulators.

(** The class of a descriptor: the base class [Emulator] and its four
    private subclasses.  Methods dispatch on it. *)
Inductive EmulatorClass : Type :=
| Emulator_
| __Mgba
| __Dolphin
| __MelonDS
| __Azahar.

(** [Emulator.__init__(self, sid, ext, gh_path)]. *)
Record Emulator : Type := mkEmulator {
  cls : EmulatorClass;
  id : string;
  ext : string;
  gh_path : string
}.

Definition MGBA : Emulator := mkEmulator __Mgba "mgba" "gba" "mgba-emu/mgba".
Definition DOLPHIN : Emulator := mkEmulator __Dolphin "dolphin" "rvz" "".
Definition MELONDS : Emulator := mkEmulator __MelonDS "melonds" "nds" "melonDS-emu/melonDS".
Definition AZAHAR : Emulator := mkEmulator __Azahar "azahar" "cci" "azahar-emu/azahar".

Definition ALL : list Emulator := [MGBA; DOLPHIN; MELONDS; AZAHAR].

(** The loop of [from_ext] over an arbitrary list. *)
Fixpoint from_ext_in (l : list Emulator) (x : string) : option Emulator :=
  match l with
  | [] => None
  | e :: l' => if String.eqb (ext e) x then Some e else from_ext_in l' x
  end.

Definition from_ext (x : string) : option Emulator := from_ext_in ALL x.

Definition dquote : string := String (ascii_of_nat 34) "".

(** [get_run_cmd(game)], on the path of the game: the base class echoes,
    each subclass starts its own binary. *)
Definition get_run_cmd (w : Env) (e : Emulator) (game_path : string) : string :=
  match cls e with
  | Emulator_ => "echo " ++ dquote ++ "run " ++ game_path ++ dquote
  | __Mgba => Path.abspath (getcwd w) "mgba/mgba" ++ " " ++ dquote ++ game_path ++ dquote
  | __Dolphin => Path.abspath (getcwd w) "dolphin/dolphin" ++ " " ++ dquote ++ game_path ++ dquote
  | __MelonDS => Path.abspath (getcwd w) "melonds/melonds" ++ " " ++ dquote ++ game_path ++ dquote
  | __Azahar => Path.abspath (getcwd w) "azahar/azahar" ++ " " ++ dquote ++ game_path ++ dquote
  end.

(** [installed_version()]. *)
Definition installed_version (w : Env) (e : Emulator) : result string :=
  match cls e with
  | Emulator_ => Ok "0"
  | __Mgba =>
      let v_out := popen_read w (Path.abspath (getcwd w) "mgba/mgba" ++ " --version") in
      Py.index (Py.split v_out) 1
  | __Dolphin => Ok "auto"
  | __MelonDS =>
      let v_out := popen_read w (Path.abspath (getcwd w) "melonds/melonds" ++ " --help") in
      (let? line := Py.index (Py.split_on "010" v_out) 0 in
       Py.index (Py.split line) 1)%result
  | __Azahar =>
      let v_out := popen_read w (Path.abspath (getcwd w) "azahar/azahar" ++ " -v") in
      Py.index (Py.split v_out) 1
  end.

Fixpoint lookup (k : string) (fields : list (string * string)) : option string :=
  match fields with
  | [] => None
  | (k', v) :: fields' => if String.eqb k' k then Some v else lookup k fields'
  end.

(** [Emulator.latest_version(self)]: the [tag_name] of the latest release
    on GitHub. *)
Definition Emulator_latest_version (w : Env) (e : Emulator) : result string :=
  match requests_get w ("https://api.github.com/repos/" ++ gh_path e ++ "/releases/latest") with
  | NoResponse => Raise ConnectionError
  | Response None _ => Raise JSONDecodeError
  | Response (Some fields) _ =>
      match lookup "tag_name" fields with
      | Some v => Ok v
      | None => Raise KeyError
      end
  end.

(** [latest_version(self)]: overridden by [__Dolphin] alone. *)
Definition latest_version (w : Env) (e : Emulator) : result string :=
  match cls e with
  | __Dolphin => Ok "auto"
  | _ => Emulator_latest_version w e
  end.

Definition class_eqb (a b : EmulatorClass) : bool :=
  match a, b with
  | Emulator_, Emulator_ | __Mgba, __Mgba | __Dolphin, __Dolphin
  | __MelonDS, __MelonDS | __Azahar, __Azahar => true
  | _, _ => false
  end.

(** Object identity of descriptors, decided on the fields. *)
Definition eqb (a b : Emulator) : bool :=
  class_eqb (cls a) (cls b) && String.eqb (id a) (id b)
  && String.eqb (ext a) (ext b) && String.eqb (gh_path a) (gh_path b).

End Emulators.

Import Emulators.

(** ** emulator_launcher.py *)

(** A [Game]: its name, its emulator and the path of its game file. *)
Record Game : Type := mkGame {
  name : string;
  emulator : Emulator;
  path : string
}.

(** What [print] writes: a text, or an exception. *)
Inductive printed : Type :=
| Text (s : string)
| Exception (e : exn).

(** A version report of [check_emu_versions]:
    [(installed_ver, latest_ver, emulator)]. *)
Definition report : Type := (string * string * Emulator)%type.

(** The state the program changes: the disk, the games of the current
    [WrappingFrame], what was printed, the [EmuOutdated] window if one was
    opened, and whether the add-game window is shown. *)
Record App : Type := mkApp {
  disk : Os.node;
  games : list Game;
  stdout : list printed;
  emu_outdated : option (list report);
  add_game_shown : bool
}.

Definition with_disk (d : Os.node) (a : App) : App :=
  mkApp d (games a) (stdout a) (emu_outdated a) (add_game_shown a).
Definition with_games (g : list Game) (a : App) : App :=
  mkApp (disk a) g (stdout a) (emu_outdated a) (add_game_shown a).
Definition with_stdout (o : list printed) (a : App) : App :=
  mkApp (disk a) (games a) o (emu_outdated a) (add_game_shown a).
Definition with_emu_outdated (o : option (list report)) (a : App) : App :=
  mkApp (disk a) (games a) (stdout a) o (add_game_shown a).
Definition with_add_game_shown (b : bool) (a : App) : App :=
  mkApp (disk a) (games a) (stdout a) (emu_outdated a) b.

(** Statements: a result, and the state reached (also when they raise). *)
Definition M (A : Type) : Type := App -> result A * App.

Definition ret {A : Type} (a : A) : M A := fun st => (Ok a, st).
Definition raise {A : Type} (e : exn) : M A := fun st => (Raise e, st).
Definition bind {A B : Type} (m : M A) (k : A -> M B) : M B :=
  fun st =>
    match m st with
    | (Ok a, st') => k a st'
    | (Raise e, st') => (Raise e, st')
    end.
(** [try: m except Exception as e: h e]. *)
Definition try_except {A : Type} (m : M A) (h : exn -> M A) : M A :=
  fun st =>
    match m st with
    | (Ok a, st') => (Ok a, st')
    | (Raise e, st') => h e st'
    end.
Definition modify (f : App -> App) : M unit := fun st => (Ok tt, f st).
Definition lift {A : Type} (r : result A) : M A := fun st => (r, st).

Declare Scope stmt_scope.
Delimit Scope stmt_scope with stmt.
Notation "x <- m ;; k" := (bind m (fun x => k))
  (at level 61, m at next level, right associativity) : stmt_scope.
Notation "m ;; k" := (bind m (fun _ => k))
  (at level 61, right associativity) : stmt_scope.

(** [for x in l: body x]. *)
Fixpoint for_each {A : Type} (l : list A) (body : A -> M unit) : M unit :=
  match l with
  | [] => ret tt
  | x :: l' => (body x ;; for_each l' body)%stmt
  end.

Definition print (p : printed) : M unit :=
  modify (fun st => with_stdout (stdout st ++ [p]) st).

(** The [os] calls, on the disk of the state. *)
Definition os_listdir (w : Env) (dir : string) : M (list string) :=
  fun st => (Os.listdir (getcwd w) (disk st) dir, st).

Definition os_mkdir (w : Env) (dir : string) : M unit :=
  fun st =>
    match Os.mkdir (getcwd w) (disk st) dir with
    | Ok d => (Ok tt, with_disk d st)
    | Raise e => (Raise e, st)
    end.

Definition os_rename (w : Env) (src dst : string) : M unit :=
  fun st =>
    match Os.rename (getcwd w) (disk st) src dst with
    | Ok d => (Ok tt, with_disk d st)
    | Raise e => (Raise e, st)
    end.

(** [Image.open(BytesIO(requests.get(url).content)).save(path)]. *)
Definition save_image_from (w : Env) (url path : string) : M unit :=
  fun st =>
    match requests_get w url with
    | NoResponse => (Raise ConnectionError, st)
    | Response _ None => (Raise UnidentifiedImageError, st)
    | Response _ (Some img) =>
        match Os.write_file (getcwd w) (disk st) path img with
        | Ok d => (Ok tt, with_disk d st)
        | Raise e => (Raise e, st)
        end
    end.

(** *** WrappingFrame *)

(** Insertion before the first game whose name is not smaller: with
    [sort_games] below, the stable sort by name of [list.sort(key=...)]. *)
Fixpoint insert_game (g : Game) (l : list Game) : list Game :=
  match l with
  | [] => [g]
  | h :: t => if String.leb (name g) (name h) then g :: h :: t else h :: insert_game g t
  end.

Fixpoint sort_games (l : list Game) : list Game :=
  match l with
  | [] => []
  | g :: t => insert_game g (sort_games t)
  end.

(** Adjacent games are in order of name. *)
Fixpoint ordered (l : list Game) : Prop :=
  match l with
  | [] => True
  | g :: t =>
      match t with
      | [] => True
      | h :: _ => String.leb (name g) (name h) = true
      end /\ ordered t
  end.

(** The games of one name. *)
Definition named (n : string) (g : Game) : bool := String.eqb (name g) n.

(** [WrappingFrame.clear]. *)
Definition clear : M unit := modify (with_games []).

(** [WrappingFrame.sort]. *)
Definition sort : M unit := modify (fun st => with_games (sort_games (games st)) st).

(** The fields [Game.__init__(master, name, emulator)] sets. *)
Definition new_Game (w : Env) (n : string) (emu : Emulator) : Game :=
  mkGame n emu (Path.abspath (getcwd w) (id emu ++ "/" ++ n ++ "/game." ++ ext emu)).

(** The picture of a game: [icon.png] in the directory of the game is
    opened when it is a file, and a white picture is made otherwise. *)
Definition load_image (w : Env) (d : Os.node) (n : string) (emu : Emulator)
  : result unit :=
  match Os.file_at (getcwd w) d (Path.join (id emu) [n; "icon.png"]) with
  | Some content => image_open w content
  | None => Ok tt
  end.

(** [Game.__init__(master, name, emulator)]: the game joins the frame, then
    its picture is loaded, which raises when [icon.png] is no picture.  What
    follows (the darker picture, the emulator's icon pasted on both, the
    labels and bindings) is presentation and is taken to return. *)
Definition Game_init (w : Env) (n : string) (emu : Emulator) : M unit :=
  (modify (fun st => with_games (games st ++ [new_Game w n emu]) st) ;;
   fun st => (load_image w (disk st) n emu, st))%stmt.

(** Every file named [icon.png] on the disk is a picture. *)
Fixpoint icons_open (w : Env) (n : Os.node) : Prop :=
  match n with
  | Os.File _ => True
  | Os.Dir es =>
      (fix all (es : list (string * Os.node)) : Prop :=
         match es with
         | [] => True
         | (k, v) :: es' =>
             (k = "icon.png" -> forall c, v = Os.File c -> image_open w c = Ok tt)
             /\ icons_open w v /\ all es'
         end) es
  end.

(** An entry of a directory is in order when it is a picture if it is a
    file named [icon.png], and every [icon.png] below it is one. *)
Definition entry_ok (w : Env) (k : string) (v : Os.node) : Prop :=
  (k = "icon.png" -> forall c, v = Os.File c -> image_open w c = Ok tt)
  /\ icons_open w v.

Definition entries_open (w : Env) (es : list (string * Os.node)) : Prop :=
  Forall (fun kv => entry_ok w (fst kv) (snd kv)) es.

(** The game the frame gets for the entry [n] of the directory of [e],
    written out. *)
Abbreviation the_game w n e :=
  (mkGame n e
     (Path.abspath (getcwd w)
        (String.append (id e)
           (String.append "/" (String.append n (String.append "/game." (ext e))))))).

(** *** App *)

(** The names [App.listdir] leaves out for the application [app_name]. *)
Definition reserved (app_name : string) : list string :=
  [app_name; app_name ++ ".config"; app_name ++ ".home"; app_name ++ ".png"]%string.

Definition is_reserved (app_name d : string) : bool :=
  existsb (String.eqb d) (reserved app_name).

(** The comprehension of [App.listdir] over a listing. *)
Definition keep_games (app_name : string) (listing : list string) : list string :=
  filter (fun d => negb (is_reserved app_name d)) listing.

(** [App.listdir(dir_name, app_name=None)]. *)
Definition listdir (w : Env) (dir_name : string) (app_name : option string)
  : M (list string) :=
  let app_name := match app_name with None => dir_name | Some a => a end in
  (listing <- os_listdir w dir_name ;;
   ret (keep_games app_name listing))%stmt.

(** The games one emulator contributes, given the listing of every
    emulator's directory. *)
Definition games_of (w : Env) (listing : Emulator -> list string) (emu : Emulator)
  : list Game :=
  map (fun n => new_Game w n emu) (keep_games (id emu) (listing emu)).

(** The loops of [load_games] over a registry. *)
Definition load_from (w : Env) (registry : list Emulator) : M unit :=
  for_each registry (fun emu =>
    (found <- listdir w (id emu) None ;;
     for_each found (fun game => Game_init w game emu))%stmt).

(** [App.load_games]: a new frame, one [Game] for every entry [listdir]
    keeps, sorted by name. *)
Definition load_games_of (w : Env) (registry : list Emulator) : M unit :=
  (clear ;;
   load_from w registry ;;
   sort)%stmt.

Definition load_games (w : Env) : M unit := load_games_of w ALL.

(** [AddGame.add_game], on the values of the three inputs; [reload_games] is
    [App.load_games]. *)
Definition add_game (w : Env) (file name_input icon_input : string) : M unit :=
  let ext := Py.tail (Path.splitext_ext file) in
  match from_ext ext with
  | None => ret tt
  | Some emu =>
      (os_mkdir w (Path.join (id emu) [name_input]) ;;
       os_rename w ("rom zips/" ++ file) (Path.join (id emu) [name_input; ("game." ++ ext)%string]) ;;
       let icon_path := Path.join (id emu) [name_input; "icon.png"] in
       try_except (save_image_from w icon_input icon_path)
         (fun e => print (Text "Could not load icon") ;; print (Exception e)) ;;
       load_games w ;;
       modify (with_add_game_shown false))%stmt
  end.

(** [vers = emu.installed_version(), emu.latest_version(), emu]: the
    installed version is probed first. *)
Definition vers (w : Env) (emu : Emulator) : result report :=
  (let? installed := installed_version w emu in
   let? latest := latest_version w emu in
   Ok (installed, latest, emu))%result.

(** [vers[0] != vers[1]]. *)
Definition differ (v : report) : bool :=
  negb (String.eqb (fst (fst v)) (snd (fst v))).

(** The loop of [check_emu_versions] over a registry: the list [outdated]. *)
Fixpoint outdated_in (w : Env) (registry : list Emulator) (outdated : list report)
  : result (list report) :=
  match registry with
  | [] => Ok outdated
  | emu :: rest =>
      (let? v := vers w emu in
       if differ v
       then outdated_in w rest (outdated ++ [v])
       else outdated_in w rest outdated)%result
  end.

(** [App.check_emu_versions]: the window is opened when [outdated] is not
    empty. *)
Definition check_emu_versions (w : Env) : M unit :=
  (outdated <- lift (outdated_in w ALL []) ;;
   match outdated with
   | [] => ret tt
   | _ :: _ => modify (with_emu_outdated (Some outdated))
   end)%stmt.

(** *** AddGame.game_choice and Game.run *)

(** [sorted(l)] on strings: insertion before the first string that is not
    smaller. *)
Fixpoint insert_string (s : string) (l : list string) : list string :=
  match l with
  | [] => [s]
  | h :: t => if String.leb s h then s :: h :: t else h :: insert_string s t
  end.

Fixpoint sorted (l : list string) : list string :=
  match l with
  | [] => []
  | s :: t => insert_string s (sorted t)
  end.

(** [os.path.splitext(f)[1] in ('.zip', '.7z')]. *)
Definition is_archive (f : string) : bool :=
  existsb (String.eqb (Path.splitext_ext f)) [".zip"; ".7z"].

(** [AddGame.game_choice()]: the entries of the source directory that are
    not archives, sorted; one empty choice when there is none. *)
Definition game_choice (w : Env) : M (list string) :=
  (listing <- os_listdir w "rom zips" ;;
   match sorted (filter (fun f => negb (is_archive f)) listing) with
   | [] => ret [""]
   | g :: games => ret (g :: games)
   end)%stmt.

(** The command [Game.run] has the emulator of the game run:
    [self.emulator.get_run_cmd(self)]. *)
Definition run_cmd (w : Env) (g : Game) : string :=
  get_run_cmd w (emulator g) (path g).

(** A word of visible ASCII characters (codes 33 to 126), not empty. *)
Definition graphic (c : ascii) : bool :=
  Nat.leb 33 (nat_of_ascii c) && Nat.leb (nat_of_ascii c) 126.

Fixpoint all_graphic (s : string) : bool :=
  match s with
  | EmptyString => true
  | String c s' => graphic c && all_graphic s'
  end.

Definition is_word (s : string) : bool :=
  negb (String.eqb s "") && all_graphic s.

(** [c in s]. *)
Fixpoint contains (c : ascii) (s : string) : bool :=
  match s with
  | EmptyString => false
  | String x s' => Ascii.eqb x c || contains c s'
  end.

(** The names of a catalog are in order: each is at most every later one. *)
Fixpoint sorted_by_name (l : list Game) : Prop :=
  match l with
  | [] => True
  | g :: t => Forall (fun h => String.leb (name g) (name h) = true) t /\ sorted_by_name t
  end.

(** The same for a list of strings. *)
Fixpoint increasing (l : list string) : Prop :=
  match l with
  | [] => True
  | s :: t => Forall (fun h => String.leb s h = true) t /\ increasing t
  end.

(** One list is the other with entries left out, the order kept. *)
Inductive sublist {A : Type} : list A -> list A -> Prop :=
| sublist_nil : sublist [] []
| sublist_skip (x : A) (l l' : list A) : sublist l l' -> sublist l (x :: l')
| sublist_keep (x : A) (l l' : list A) : sublist l l' -> sublist (x :: l) (x :: l').

(** ** Worlds and disks used in examples *)

Definition cwd0 : list string := ["opt"; "launcher"].

(** A release feed that answers every request with the tag [tag]. *)
Definition feed (tag : string) (url : string) : response :=
  Response (Some [("tag_name", tag)]) None.

(** PIL opens every file but the one that says it is no picture. *)
Definition pictures (content : string) : result unit :=
  if String.eqb content "not a picture" then Raise UnidentifiedImageError else Ok tt.

(** Every binary prints [emu 1.0]; the feed says 1.1. *)
Definition world_outdated : Env :=
  mkEnv cwd0 (fun _ => "emu 1.0") (feed "1.1") pictures.

(** The same, with the mgba binary missing: its command prints nothing. *)
Definition world_mgba_missing : Env :=
  mkEnv cwd0
    (fun cmd => if String.eqb cmd "/opt/launcher/mgba/mgba --version" then "" else "emu 1.0")
    (feed "1.1") pictures.

(** The same as [world_outdated], without network. *)
Definition world_offline : Env :=
  mkEnv cwd0 (fun _ => "emu 1.0") (fun _ => NoResponse) pictures.

(** The four emulator directories, one game of mgba, and two source files. *)
Definition disk0 : Os.node :=
  Os.Dir [("opt", Os.Dir [("launcher", Os.Dir [
    ("mgba", Os.Dir [("mgba", Os.File "elf"); ("mgba.config", Os.Dir []);
                     ("Pokemon", Os.Dir [("game.gba", Os.File "pokemon rom")])]);
    ("dolphin", Os.Dir [("dolphin", Os.File "elf")]);
    ("melonds", Os.Dir [("melonds", Os.File "elf")]);
    ("azahar", Os.Dir [("azahar", Os.File "elf")]);
    ("rom zips", Os.Dir [("zelda.gba", Os.File "zelda rom"); ("notes.txt", Os.File "text")])])])].

Definition app0 : App := mkApp disk0 [] [] None true.

(** Every binary prints a line with its name, its version and more, and
    then a second line. *)
Definition world_help : Env :=
  mkEnv cwd0 (fun _ => ("melonDS 1.1.0 beta" ++ String "010" "Usage: melonDS FILE")%string)
    (feed "1.1.0") pictures.

(** The scenario of one registered emulator, mgba, with one game and its
    configuration directory. *)
Definition scenario_disk : Os.node :=
  Os.Dir [("opt", Os.Dir [("launcher", Os.Dir [
    ("mgba", Os.Dir [("Pokemon", Os.Dir [("game.gba", Os.File "pokemon rom")]);
                     ("mgba.config", Os.Dir [])])])])].

Definition scenario_app : App := mkApp scenario_disk [] [] None false.



(** Every binary prints [emu 1.0] but the one of melonds, which is missing;
    the feed says 1.1. *)
Definition world_melonds_missing : Env :=
  mkEnv cwd0
    (fun cmd => if String.eqb cmd "/opt/launcher/melonds/melonds --help" then ""
                else "emu 1.0")
    (feed "1.1") pictures.

(** * Properties *)

(** ** The registry *)

Section Registry.

(** [from_ext_in] returns the first descriptor of the list that has the
    extension, and nothing when none has it. *)
Lemma from_ext_in_first (l : list Emulator) (x : string) (d : Emulator) :
  from_ext_in l x = Some d <->
  exists l1 l2, l = l1 ++ d :: l2 /\ ext d = x /\ forall e, In e l1 -> ext e <> x.
Proof.
  induction l as [| e l IH]; simpl.
  - split; [discriminate |].
    intros (l1 & l2 & H & _). destruct l1; discriminate.
  - destruct (String.eqb_spec (ext e) x) as [He | He].
    + split.
      * intros [= <-]. exists [], l. simpl. intuition.
      * intros (l1 & l2 & H & Hd & Hl1).
        destruct l1 as [| e' l1]; simpl in H; injection H as -> ->; [reflexivity |].
        exfalso. apply (Hl1 e'); [now left | exact He].
    + rewrite IH. split.
      * intros (l1 & l2 & -> & Hd & Hl1). exists (e :: l1), l2.
        simpl. repeat split; auto.
        intros e' [<- | Hin]; auto.
      * intros (l1 & l2 & H & Hd & Hl1).
        destruct l1 as [| e' l1]; simpl in H; injection H as -> ->.
        -- contradiction.
        -- exists l1, l2. repeat split; auto.
           intros e0 Hin. apply Hl1. now right.
Qed.

Lemma from_ext_in_none (l : list Emulator) (x : string) :
  from_ext_in l x = None <-> forall e, In e l -> ext e <> x.
Proof.
  induction l as [| e l IH]; simpl.
  - intuition.
  - destruct (String.eqb_spec (ext e) x) as [He | He].
    + split; [discriminate |]. intros H. exfalso. apply (H e); auto.
    + rewrite IH. split.
      * intros H e' [<- | Hin]; auto.
      * intros H e' Hin. apply H. now right.
Qed.

Lemma ALL_NoDup : NoDup ALL.
Proof.
  unfold ALL. repeat constructor; simpl; intuition discriminate.
Qed.

Lemma ext_ALL_NoDup : NoDup (map ext ALL).
Proof.
  simpl. repeat constructor; simpl; intuition discriminate.
Qed.

(** Extensions are compared as they are written: upper case does not
    match. *)
Example from_ext_case_sensitive : from_ext "GBA" = None /\ from_ext ".gba" = None.
Proof. split; reflexivity. Qed.

End Registry.

(** C5. [from_ext] applied to the extension of a registered emulator returns
    that emulator: resolving a descriptor's own extension gives the
    descriptor back. *)
Theorem from_ext_roundtrip :
  forall d : Emulator, In d ALL -> from_ext (ext d) = Some d.
Proof.
  intros d Hd. unfold ALL in Hd. simpl in Hd.
  destruct Hd as [<- | [<- | [<- | [<- | []]]]]; reflexivity.
Qed.

Lemma from_ext_roundtrip_witness :
  In MELONDS ALL /\ from_ext (ext MELONDS) = Some MELONDS.
Proof.
  assert (H : In MELONDS ALL) by (simpl; auto).
  split; [exact H | exact (from_ext_roundtrip MELONDS H)].
Defined.

(** C10. The registry is the four descriptors mgba, dolphin, melonds and
    azahar with the extensions gba, rvz, nds and cci; the extensions are
    pairwise distinct, so at most one descriptor handles an extension, and
    [from_ext] finds it. *)
Theorem registry_extensions_distinct :
  map (fun e => (id e, ext e)) ALL
    = [("mgba", "gba"); ("dolphin", "rvz"); ("melonds", "nds"); ("azahar", "cci")]
  /\ NoDup (map ext ALL)
  /\ (forall x d1 d2, In d1 ALL -> In d2 ALL -> ext d1 = x -> ext d2 = x -> d1 = d2)
  /\ (forall x d, In d ALL -> ext d = x -> from_ext x = Some d).
Proof.
  split; [reflexivity |]. split; [exact ext_ALL_NoDup |]. split.
  - intros x d1 d2 H1 H2 E1 E2. subst x. simpl in H1, H2.
    destruct H1 as [<- | [<- | [<- | [<- | []]]]];
      destruct H2 as [<- | [<- | [<- | [<- | []]]]];
      (reflexivity || discriminate).
  - intros x d Hd <-. simpl in Hd.
    destruct Hd as [<- | [<- | [<- | [<- | []]]]]; reflexivity.
Qed.

Lemma registry_extensions_distinct_witness :
  from_ext "nds" = Some MELONDS /\ from_ext_in [AZAHAR; MGBA] "gba" = Some MGBA.
Proof.
  destruct registry_extensions_distinct as (_ & _ & Huniq & Hfind).
  split.
  - apply (Hfind "nds" MELONDS); simpl; auto.
  - change (Some MGBA = Some MGBA).
    exact (f_equal Some
             (Huniq "gba" MGBA MGBA (or_introl eq_refl) (or_introl eq_refl) eq_refl eq_refl)).
Defined.

(** ** Sorting the frame *)

Section Sorting.

Lemma leb_refl (s : string) : String.leb s s = true.
Proof. destruct (String.leb_total s s); assumption. Qed.

Lemma insert_game_fixes_ordered (g : Game) (l : list Game) :
  ordered (g :: l) -> insert_game g l = g :: l.
Proof.
  destruct l as [| h t]; simpl; [reflexivity |].
  intros [-> _]. reflexivity.
Qed.

Lemma sort_games_fixes_ordered (l : list Game) :
  ordered l -> sort_games l = l.
Proof.
  induction l as [| g t IH]; [reflexivity |].
  intros H. simpl. rewrite IH by apply H.
  now apply insert_game_fixes_ordered.
Qed.

Lemma insert_game_ordered (g : Game) (l : list Game) :
  ordered l -> ordered (insert_game g l).
Proof.
  induction l as [| h t IH]; simpl; [auto |].
  intros [Hh Ht].
  destruct (String.leb (name g) (name h)) eqn:E.
  - simpl. auto.
  - assert (Hhg : String.leb (name h) (name g) = true).
    { destruct (String.leb_total (name g) (name h)); congruence. }
    specialize (IH Ht). split; [| exact IH].
    destruct t as [| k t']; simpl in *; [exact Hhg |].
    destruct (String.leb (name g) (name k)); assumption.
Qed.

Lemma sort_games_ordered (l : list Game) : ordered (sort_games l).
Proof.
  induction l as [| g t IH]; simpl; [exact I |].
  now apply insert_game_ordered.
Qed.

Lemma insert_game_perm (g : Game) (l : list Game) :
  Permutation (g :: l) (insert_game g l).
Proof.
  induction l as [| h t IH]; simpl; [reflexivity |].
  destruct (String.leb (name g) (name h)); [reflexivity |].
  rewrite perm_swap. now constructor.
Qed.

(** The sort keeps the games and only reorders them. *)
Lemma sort_games_perm (l : list Game) : Permutation l (sort_games l).
Proof.
  induction l as [| g t IH]; simpl; [constructor |].
  rewrite <- insert_game_perm. now constructor.
Qed.

Lemma insert_game_named (n : string) (g : Game) (l : list Game) :
  filter (named n) (insert_game g l) = filter (named n) (g :: l).
Proof.
  induction l as [| h t IH]; [reflexivity |].
  simpl insert_game.
  destruct (String.leb (name g) (name h)) eqn:E; [reflexivity |].
  simpl in *. rewrite IH. unfold named.
  destruct (String.eqb_spec (name g) n) as [Hg | Hg];
    destruct (String.eqb_spec (name h) n) as [Hh | Hh]; try reflexivity.
  rewrite Hg, Hh, leb_refl in E. discriminate.
Qed.

(** The sort is stable: games of one name stay in the order they had. *)
Lemma sort_games_stable (n : string) (l : list Game) :
  filter (named n) (sort_games l) = filter (named n) l.
Proof.
  induction l as [| g t IH]; [reflexivity |].
  simpl sort_games. rewrite insert_game_named. simpl. now rewrite IH.
Qed.

End Sorting.

(** C9. Sorting is idempotent: sorting a catalog that was already sorted by
    name gives the same sequence, for the list and for the frame. *)
Theorem sort_idempotent :
  forall (c : list Game) (st : App),
    sort_games (sort_games c) = sort_games c
    /\ (sort ;; sort)%stmt st = sort st.
Proof.
  intros c st.
  assert (H : forall l, sort_games (sort_games l) = sort_games l)
    by (intros l; apply sort_games_fixes_ordered, sort_games_ordered).
  split; [apply H |].
  unfold bind, sort, modify, with_games. simpl.
  now rewrite H.
Qed.

(** ** The version check *)

Section VersionCheck.

Variable w : Env.

Lemma class_eqb_eq (a b : EmulatorClass) : class_eqb a b = true <-> a = b.
Proof. destruct a, b; simpl; split; (reflexivity || discriminate). Qed.

Lemma eqb_eq (a b : Emulator) : Emulators.eqb a b = true <-> a = b.
Proof.
  destruct a as [ca ia ea ga], b as [cb ib eb gb]. unfold Emulators.eqb. simpl.
  rewrite !andb_true_iff, class_eqb_eq, !String.eqb_eq.
  split.
  - intros [[[-> ->] ->] ->]. reflexivity.
  - intros [= -> -> -> ->]. auto.
Qed.

(** A tuple [vers] is built exactly when both probes return. *)
Lemma vers_ok (e : Emulator) (v : report) :
  vers w e = Ok v <->
  installed_version w e = Ok (fst (fst v))
  /\ latest_version w e = Ok (snd (fst v)) /\ snd v = e.
Proof.
  unfold vers, rbind. destruct v as [[i l] e']. simpl.
  destruct (installed_version w e) as [i0 | x]; [| intuition discriminate].
  destruct (latest_version w e) as [l0 | x]; [| intuition discriminate].
  split.
  - intros [= -> -> ->]. auto.
  - intros ([= ->] & [= ->] & ->). reflexivity.
Qed.

(** It raises what the first failing probe raises. *)
Lemma vers_raise (e : Emulator) (x : exn) :
  vers w e = Raise x <->
  installed_version w e = Raise x
  \/ exists i, installed_version w e = Ok i /\ latest_version w e = Raise x.
Proof.
  unfold vers, rbind.
  destruct (installed_version w e) as [i0 | x0].
  - destruct (latest_version w e) as [l0 | x1].
    + split; [discriminate |]. intros [H | (i & _ & H)]; discriminate.
    + split.
      * intros [= ->]. right. eauto.
      * intros [H | (i & _ & H)]; [discriminate | injection H as ->; reflexivity].
  - split.
    + intros [= ->]. now left.
    + intros [H | (i & H & _)]; [injection H as ->; reflexivity | discriminate].
Qed.

(** When every probe returns, the loop keeps the tuples that differ, in
    the order of the registry. *)
Lemma outdated_in_ok (V : Emulator -> report) (registry : list Emulator) :
  (forall e, In e registry -> vers w e = Ok (V e)) ->
  forall outdated,
    outdated_in w registry outdated = Ok (outdated ++ filter differ (map V registry)).
Proof.
  induction registry as [| e rest IH]; intros HV outdated; simpl.
  - now rewrite app_nil_r.
  - rewrite (HV e) by now left. simpl.
    assert (Hrest : forall e', In e' rest -> vers w e' = Ok (V e'))
      by (intros e' Hin; apply HV; now right).
    destruct (differ (V e)).
    + rewrite (IH Hrest). now rewrite <- app_assoc.
    + apply (IH Hrest).
Qed.

(** The first tuple that cannot be built ends the loop with its
    exception. *)
Lemma outdated_in_raise (l1 l2 : list Emulator) (e : Emulator) (x : exn) :
  (forall e', In e' l1 -> exists v, vers w e' = Ok v) ->
  vers w e = Raise x ->
  forall outdated, outdated_in w (l1 ++ e :: l2) outdated = Raise x.
Proof.
  induction l1 as [| e1 l1 IH]; intros Hl1 He outdated; simpl.
  - now rewrite He.
  - destruct (Hl1 e1) as [v Hv]; [now left |]. rewrite Hv. simpl.
    assert (Hrest : forall e', In e' l1 -> exists v', vers w e' = Ok v')
      by (intros e' Hin; apply Hl1; now right).
    destruct (differ v); apply (IH Hrest He).
Qed.

(** If the loop returns, every probe had returned. *)
Lemma outdated_in_returns (registry : list Emulator) :
  forall outdated reports,
    outdated_in w registry outdated = Ok reports ->
    forall e, In e registry -> exists v, vers w e = Ok v.
Proof.
  induction registry as [| e0 rest IH]; intros outdated reports H e Hin; simpl in *.
  - contradiction.
  - destruct (vers w e0) as [v | x] eqn:E; simpl in H; [| discriminate].
    destruct Hin as [<- | Hin]; [eauto |].
    destruct (differ v); eapply IH; eauto.
Qed.

(** Every tuple the loop adds differs and is the tuple of its emulator. *)
Lemma outdated_in_sound (registry : list Emulator) :
  forall outdated reports,
    outdated_in w registry outdated = Ok reports ->
    forall r, In r reports ->
      In r outdated
      \/ (In (snd r) registry /\ vers w (snd r) = Ok r /\ differ r = true).
Proof.
  induction registry as [| e0 rest IH]; intros outdated reports H r Hr; simpl in *.
  - injection H as <-. now left.
  - destruct (vers w e0) as [v | x] eqn:E; simpl in H; [| discriminate].
    assert (Hv : snd v = e0) by (apply vers_ok in E; apply E).
    destruct (differ v) eqn:D.
    + destruct (IH _ _ H r Hr) as [Hin | (Hin & Hvers & Hd)].
      * apply in_app_or in Hin. destruct Hin as [Hin | [<- | []]]; [now left |].
        right. rewrite Hv. auto.
      * right. auto.
    + destruct (IH _ _ H r Hr) as [Hin | (Hin & Hvers & Hd)]; [now left |].
      right. auto.
Qed.

(** In a registry without repetition the reports of one emulator are its
    own tuple, if it differs, and nothing otherwise. *)
Lemma reports_of_emulator (V : Emulator -> report) (registry : list Emulator)
      (e : Emulator) :
  (forall e', snd (V e') = e') ->
  NoDup registry -> In e registry ->
  filter (fun r => Emulators.eqb (snd r) e) (filter differ (map V registry))
  = if differ (V e) then [V e] else [].
Proof.
  intros HV. induction registry as [| e0 rest IH]; intros Hnd Hin; [contradiction |].
  inversion Hnd as [| ? ? Hnotin Hnd']; subst.
  assert (Hnone : ~ In e rest ->
            filter (fun r => Emulators.eqb (snd r) e) (filter differ (map V rest)) = []).
  { clear - HV. intros Hnot. induction rest as [| e1 rest IH]; [reflexivity |].
    simpl. assert (He1 : Emulators.eqb (snd (V e1)) e = false).
    { destruct (Emulators.eqb (snd (V e1)) e) eqn:E; [| reflexivity].
      apply eqb_eq in E. rewrite HV in E. subst. exfalso. apply Hnot. now left. }
    assert (IH' := IH (fun H => Hnot (or_intror H))).
    destruct (differ (V e1)); simpl; [rewrite He1 |]; exact IH'. }
  simpl. destruct Hin as [-> | Hin].
  - destruct (differ (V e)); simpl.
    + assert (E : Emulators.eqb (snd (V e)) e = true) by (apply eqb_eq, HV).
      rewrite E, (Hnone Hnotin). reflexivity.
    + apply (Hnone Hnotin).
  - assert (E : Emulators.eqb (snd (V e0)) e = false).
    { destruct (Emulators.eqb (snd (V e0)) e) eqn:E; [| reflexivity].
      apply eqb_eq in E. rewrite HV in E. subst. contradiction. }
    destruct (differ (V e0)); simpl; [rewrite E |]; apply (IH Hnd' Hin).
Qed.

End VersionCheck.

(** C6, as the claim states it, fails: with the melonds binary missing, the
    installed and latest versions of mgba are read and differ, yet the check
    raises [IndexError] at melonds and mgba gets no report: no window is
    opened. *)
Lemma mismatch_not_reported :
  vers world_melonds_missing MGBA = Ok ("1.0", "1.1", MGBA)
  /\ installed_version world_melonds_missing MELONDS = Raise IndexError
  /\ check_emu_versions world_melonds_missing app0 = (Raise IndexError, app0)
  /\ emu_outdated app0 = None.
Proof. repeat split; reflexivity. Qed.

(** C6, amended.  When the probes of every emulator return, the version
    check makes no report for an emulator whose installed and latest versions
    are equal and exactly one report, with both versions and the emulator,
    for one whose versions differ; there are as many reports as emulators
    that differ, and the window is opened on them when there is one. *)
Theorem version_reports :
  forall (w : Env) (st : App) (installed latest : Emulator -> string),
    (forall e, In e ALL ->
       installed_version w e = Ok (installed e) /\ latest_version w e = Ok (latest e)) ->
    let reports := filter differ (map (fun e => (installed e, latest e, e)) ALL) in
    outdated_in w ALL [] = Ok reports
    /\ (forall e, In e ALL -> installed e = latest e ->
          forall r, In r reports -> snd r <> e)
    /\ (forall e, In e ALL -> installed e <> latest e ->
          filter (fun r => Emulators.eqb (snd r) e) reports = [(installed e, latest e, e)])
    /\ List.length reports
         = List.length (filter (fun e => negb (String.eqb (installed e) (latest e))) ALL)
    /\ check_emu_versions w st
         = (Ok tt, match reports with
                   | [] => st
                   | _ :: _ => with_emu_outdated (Some reports) st
                   end).
Proof.
  intros w st installed latest Hprobes reports.
  set (V := fun e : Emulator => (installed e, latest e, e)) in *.
  assert (HV : forall e, In e ALL -> vers w e = Ok (V e)).
  { intros e He. apply vers_ok. destruct (Hprobes e He). simpl. auto. }
  assert (Hloop : outdated_in w ALL [] = Ok reports)
    by exact (outdated_in_ok w V ALL HV []).
  assert (Hone : forall e, In e ALL ->
            filter (fun r => Emulators.eqb (snd r) e) reports
            = if differ (V e) then [V e] else []).
  { intros e He. apply reports_of_emulator; auto using ALL_NoDup. }
  split; [exact Hloop |]. split; [| split; [| split]].
  - intros e He Heq r Hr <-.
    assert (Hin : In r (filter (fun r' => Emulators.eqb (snd r') (snd r)) reports)).
    { apply filter_In. split; [exact Hr | now apply eqb_eq]. }
    rewrite (Hone _ He) in Hin. unfold differ, V in Hin. simpl in Hin.
    rewrite Heq, String.eqb_refl in Hin. exact Hin.
  - intros e He Hne. rewrite (Hone _ He). unfold differ, V. simpl.
    destruct (String.eqb_spec (installed e) (latest e)); [contradiction | reflexivity].
  - unfold reports. clear. induction ALL as [| e l IH]; [reflexivity |].
    simpl. unfold differ at 1. unfold V at 1. simpl.
    destruct (negb (String.eqb (installed e) (latest e))); simpl; now rewrite IH.
  - unfold check_emu_versions, bind, lift. rewrite Hloop.
    destruct reports; reflexivity.
Qed.

Lemma version_reports_witness :
  outdated_in world_outdated ALL []
  = Ok [("1.0", "1.1", MGBA); ("1.0", "1.1", MELONDS); ("1.0", "1.1", AZAHAR)].
Proof.
  refine (proj1 (version_reports world_outdated app0
                   (fun e => match cls e with __Dolphin => "auto" | _ => "1.0" end)
                   (fun e => match cls e with __Dolphin => "auto" | _ => "1.1" end) _)).
  intros e He. simpl in He.
  destruct He as [<- | [<- | [<- | [<- | []]]]]; split; reflexivity.
Defined.

(** C7. A registered emulator without a release source (dolphin is the one)
    answers the same fixed value to both probes, whatever the world, so the
    version check never reports it. *)
Theorem no_release_source_never_outdated :
  forall e : Emulator, In e ALL -> gh_path e = "" ->
    forall w : Env,
      latest_version w e = installed_version w e
      /\ latest_version w e = Ok "auto"
      /\ (forall reports, outdated_in w ALL [] = Ok reports ->
            forall r, In r reports -> snd r <> e)
      /\ (forall st st' reports,
            check_emu_versions w st = (Ok tt, st') ->
            emu_outdated st' = Some reports -> emu_outdated st = None ->
            forall r, In r reports -> snd r <> e).
Proof.
  intros e He Hgh w. simpl in He.
  destruct He as [<- | [<- | [<- | [<- | []]]]]; try discriminate Hgh.
  assert (Hloop : forall reports, outdated_in w ALL [] = Ok reports ->
            forall r, In r reports -> snd r <> DOLPHIN).
  { intros reports H r Hr Heq.
    destruct (outdated_in_sound w ALL [] _ H r Hr) as [[] | (_ & Hv & Hd)].
    rewrite Heq in Hv. unfold vers in Hv. simpl in Hv. injection Hv as <-.
    discriminate Hd. }
  repeat split; auto.
  intros st st' reports H Hwin Hnone r Hr.
  unfold check_emu_versions, bind, lift in H.
  destruct (outdated_in w ALL []) as [out | x] eqn:E; [| discriminate].
  destruct out as [| r0 out].
  - injection H as <-. congruence.
  - injection H as <-. simpl in Hwin. injection Hwin as <-.
    exact (Hloop _ eq_refl r Hr).
Qed.

Lemma no_release_source_never_outdated_witness :
  latest_version world_outdated DOLPHIN = installed_version world_outdated DOLPHIN.
Proof.
  refine (proj1 (no_release_source_never_outdated DOLPHIN _ eq_refl world_outdated)).
  simpl. auto.
Defined.

(** C1, as the claim states it, fails: with the mgba binary missing, the
    probes of the three other emulators return and melonds and azahar are
    outdated, yet the whole check raises [IndexError] and opens no window;
    without network it raises [ConnectionError]. *)
Lemma probe_failure_aborts_check :
  installed_version world_mgba_missing MGBA = Raise IndexError
  /\ vers world_mgba_missing DOLPHIN = Ok ("auto", "auto", DOLPHIN)
  /\ vers world_mgba_missing MELONDS = Ok ("1.0", "1.1", MELONDS)
  /\ vers world_mgba_missing AZAHAR = Ok ("1.0", "1.1", AZAHAR)
  /\ check_emu_versions world_mgba_missing app0 = (Raise IndexError, app0)
  /\ check_emu_versions world_offline app0 = (Raise ConnectionError, app0).
Proof. repeat split; reflexivity. Qed.

(** C1, amended.  [check_emu_versions] catches nothing: the first probe that
    raises, in the order of the registry and installed before latest, makes
    the whole check raise that exception, with no report and the state
    unchanged; the check returns exactly when every probe of every emulator
    returns. *)
Theorem probe_failure_propagates :
  forall (w : Env) (st : App),
    (forall l1 e l2 x,
       ALL = l1 ++ e :: l2 ->
       (forall e', In e' l1 -> exists v, vers w e' = Ok v) ->
       (installed_version w e = Raise x
        \/ exists i, installed_version w e = Ok i /\ latest_version w e = Raise x) ->
       check_emu_versions w st = (Raise x, st))
    /\ ((exists st', check_emu_versions w st = (Ok tt, st')) <->
        (forall e, In e ALL -> exists v, vers w e = Ok v)).
Proof.
  intros w st. split.
  - intros l1 e l2 x Hall Hl1 Hfail.
    unfold check_emu_versions, bind, lift. rewrite Hall.
    rewrite (outdated_in_raise w l1 l2 e x Hl1); [reflexivity |].
    now apply vers_raise.
  - split.
    + intros [st' H]. unfold check_emu_versions, bind, lift in H.
      destruct (outdated_in w ALL []) as [out | x] eqn:E; [| discriminate].
      exact (outdated_in_returns w ALL [] _ E).
    + intros H.
      assert (HV : exists V, forall e, In e ALL -> vers w e = Ok (V e)).
      { clear - H. induction ALL as [| e0 l IH].
        - exists (fun e => ("", "", e)). intros e [].
        - destruct IH as [V HV]; [intros e He; apply H; now right |].
          destruct (H e0) as [v0 Hv0]; [now left |].
          exists (fun e => if Emulators.eqb e e0 then v0 else V e).
          intros e [<- | He].
          + assert (E : Emulators.eqb e0 e0 = true) by now apply eqb_eq.
            now rewrite E.
          + destruct (Emulators.eqb e e0) eqn:E; [| auto].
            apply eqb_eq in E. now subst. }
      destruct HV as [V HV].
      unfold check_emu_versions, bind, lift.
      rewrite (outdated_in_ok w V ALL HV []).
      change ([] ++ filter differ (map V ALL)) with (filter differ (map V ALL)).
      destruct (filter differ (map V ALL)); eexists; reflexivity.
Qed.

Lemma probe_failure_propagates_witness :
  check_emu_versions world_mgba_missing app0 = (Raise IndexError, app0).
Proof.
  refine (proj1 (probe_failure_propagates world_mgba_missing app0)
            [] MGBA [DOLPHIN; MELONDS; AZAHAR] IndexError eq_refl _ _).
  - intros e' [].
  - left. reflexivity.
Defined.

(** ** The disk *)

Section Disk.

Import Os.

Lemma assoc_set_same (k : string) (v : node) (es : list (string * node)) :
  assoc k (set k v es) = Some v.
Proof.
  induction es as [| [k' v'] es IH]; simpl.
  - now rewrite String.eqb_refl.
  - destruct (String.eqb k' k) eqn:E; simpl.
    + now rewrite String.eqb_refl.
    + now rewrite E.
Qed.

Lemma assoc_set_other (k k' : string) (v : node) (es : list (string * node)) :
  k' <> k -> assoc k' (set k v es) = assoc k' es.
Proof.
  intros Hne. induction es as [| [k0 v0] es IH]; simpl.
  - destruct (String.eqb_spec k k'); [congruence | reflexivity].
  - destruct (String.eqb_spec k0 k) as [-> | Hk0]; simpl.
    + destruct (String.eqb_spec k k'); [congruence | reflexivity].
    + destruct (String.eqb k0 k'); [reflexivity | exact IH].
Qed.

Lemma assoc_unset_other (k k' : string) (es : list (string * node)) :
  k' <> k -> assoc k' (unset k es) = assoc k' es.
Proof.
  intros Hne. induction es as [| [k0 v0] es IH]; simpl; [reflexivity |].
  destruct (String.eqb_spec k0 k) as [-> | Hk0]; simpl.
  - destruct (String.eqb_spec k k'); [congruence | exact IH].
  - destruct (String.eqb k0 k'); [reflexivity | exact IH].
Qed.

Lemma assoc_In (k : string) (v : node) (es : list (string * node)) :
  assoc k es = Some v -> In k (map fst es).
Proof.
  induction es as [| [k' v'] es IH]; simpl; [discriminate |].
  destruct (String.eqb_spec k' k); auto.
Qed.

(** Looking up a location in two steps. *)
Lemma get_app (p q : list string) (n : node) :
  get (p ++ q) n = match get p n with
                   | Some m => get q m
                   | None => None
                   end.
Proof.
  revert n. induction p as [| c p IH]; intros n; simpl; [reflexivity |].
  destruct n as [? | es]; [reflexivity |].
  destruct (assoc c es); [apply IH | reflexivity].
Qed.

(** What exists lies in a directory that lists it. *)
Lemma get_parent (p : list string) (c : string) (n m : node) :
  get (p ++ [c]) n = Some m ->
  exists es, get p n = Some (Dir es) /\ assoc c es = Some m.
Proof.
  rewrite get_app. destruct (get p n) as [[? | es] |]; simpl; try discriminate.
  destruct (assoc c es) eqn:E; [| discriminate].
  intros [= ->]. eauto.
Qed.

Lemma get_prefix_dir (p q : list string) (n m : node) :
  q <> [] -> get (p ++ q) n = Some m -> exists es, get p n = Some (Dir es).
Proof.
  intros Hq. rewrite get_app.
  destruct (get p n) as [[? | es] |]; try discriminate; [| eauto].
  destruct q; [contradiction | discriminate].
Qed.

(** Nothing lies below an empty directory. *)
Lemma get_below_empty (p q : list string) (n : node) :
  q <> [] -> get p n = Some (Dir []) -> get (p ++ q) n = None.
Proof.
  intros Hq H. rewrite get_app, H. destruct q; [contradiction | reflexivity].
Qed.

Lemma get_cons (c : string) (p : list string) (es : list (string * node)) :
  get (c :: p) (Dir es) = match assoc c es with
                          | Some m => get p m
                          | None => None
                          end.
Proof. reflexivity. Qed.

Lemma put_cons (c c' : string) (d : list string) (v : node) (es : list (string * node)) :
  put (c :: c' :: d) v (Dir es) = match assoc c es with
                                  | Some m => Dir (set c (put (c' :: d) v m) es)
                                  | None => Dir es
                                  end.
Proof. reflexivity. Qed.

Lemma del_cons (c c' : string) (s : list string) (es : list (string * node)) :
  del (c :: c' :: s) (Dir es) = match assoc c es with
                                | Some m => Dir (set c (del (c' :: s) m) es)
                                | None => Dir es
                                end.
Proof. reflexivity. Qed.

(** What [put] stores is found again, when the parent is a directory. *)
Lemma get_put_same (p : list string) (v n : node) :
  p <> [] -> (exists es, get (removelast p) n = Some (Dir es)) ->
  get p (put p v n) = Some v.
Proof.
  revert n. induction p as [| c p IH]; intros n Hp [es H]; [contradiction |].
  destruct p as [| c' p].
  - simpl in H. injection H as ->. simpl. now rewrite assoc_set_same.
  - change (removelast (c :: c' :: p)) with (c :: removelast (c' :: p)) in H.
    simpl in H. destruct n as [? | es0]; [discriminate |].
    destruct (assoc c es0) as [m |] eqn:E; [| discriminate].
    assert (Hget : get (c' :: p) (put (c' :: p) v m) = Some v).
    { apply IH; [discriminate | eauto]. }
    rewrite put_cons, E, get_cons, assoc_set_same. exact Hget.
Qed.

Lemma is_prefix_length (p q : list string) :
  is_prefix p q = true -> List.length p <= List.length q.
Proof.
  revert q. induction p as [| a p IH]; intros [| b q]; simpl; try lia; try discriminate.
  rewrite andb_true_iff. intros [_ H]. apply IH in H. lia.
Qed.

Lemma is_prefix_app_common (c p q : list string) :
  is_prefix (c ++ p) (c ++ q) = is_prefix p q.
Proof.
  induction c as [| a c IH]; simpl; [reflexivity |].
  now rewrite String.eqb_refl.
Qed.

Lemma is_prefix_longer (c p q : list string) :
  List.length q < List.length p -> is_prefix (c ++ p) (c ++ q) = false.
Proof.
  intros H. rewrite is_prefix_app_common.
  destruct (is_prefix p q) eqn:E; [| reflexivity].
  apply is_prefix_length in E. lia.
Qed.

(** A directory stays one when something is stored elsewhere than at it or
    above it. *)
Lemma put_keeps_dir (q d : list string) (v n : node) :
  is_prefix d q = false ->
  (exists es, get q n = Some (Dir es)) ->
  exists es', get q (put d v n) = Some (Dir es').
Proof.
  revert d n. induction q as [| a q IH]; intros d n Hd [es H].
  - destruct d as [| c d]; [discriminate |].
    simpl in H. injection H as ->. simpl.
    destruct d; [eauto |]. destruct (assoc c es); eauto.
  - destruct d as [| c d]; [discriminate |].
    simpl in H. destruct n as [? | es0]; [discriminate |].
    destruct (assoc a es0) as [m |] eqn:E; [| discriminate].
    simpl in Hd.
    destruct d as [| c' d].
    + destruct (String.eqb_spec c a) as [-> | Hne]; [discriminate |].
      simpl. rewrite assoc_set_other by congruence. rewrite E. eauto.
    + rewrite put_cons.
      destruct (String.eqb_spec c a) as [-> | Hne].
      * rewrite E, get_cons, assoc_set_same. apply IH; eauto.
      * destruct (assoc c es0); rewrite get_cons.
        -- rewrite assoc_set_other by congruence. rewrite E. eauto.
        -- rewrite E. eauto.
Qed.

(** The same for a removal. *)
Lemma del_keeps_dir (q s : list string) (n : node) :
  is_prefix s q = false ->
  (exists es, get q n = Some (Dir es)) ->
  exists es', get q (del s n) = Some (Dir es').
Proof.
  revert s n. induction q as [| a q IH]; intros s n Hs [es H].
  - destruct s as [| c s]; [discriminate |].
    simpl in H. injection H as ->. simpl.
    destruct s; [eauto |]. destruct (assoc c es); eauto.
  - destruct s as [| c s]; [discriminate |].
    simpl in H. destruct n as [? | es0]; [discriminate |].
    destruct (assoc a es0) as [m |] eqn:E; [| discriminate].
    simpl in Hs.
    destruct s as [| c' s].
    + destruct (String.eqb_spec c a) as [-> | Hne]; [discriminate |].
      simpl. rewrite assoc_unset_other by congruence. rewrite E. eauto.
    + rewrite del_cons.
      destruct (String.eqb_spec c a) as [-> | Hne].
      * rewrite E, get_cons, assoc_set_same. apply IH; eauto.
      * destruct (assoc c es0); rewrite get_cons.
        -- rewrite assoc_set_other by congruence. rewrite E. eauto.
        -- rewrite E. eauto.
Qed.

(** Storing at a location leaves every location beside it as it was. *)
Lemma get_put_beside (q d : list string) (v n : node) :
  is_prefix d q = false -> is_prefix q d = false ->
  get q (put d v n) = get q n.
Proof.
  revert d n. induction q as [| a q IH]; intros d n Hd Hq; [discriminate |].
  destruct d as [| c d]; [discriminate |].
  simpl in Hd, Hq.
  destruct n as [? | es0]; [reflexivity |].
  destruct d as [| c' d].
  - destruct (String.eqb_spec c a) as [-> | Hne]; [discriminate |].
    simpl. now rewrite assoc_set_other by congruence.
  - rewrite put_cons.
    destruct (String.eqb_spec c a) as [-> | Hne].
    + rewrite String.eqb_refl in Hq. simpl in Hq.
      destruct (assoc a es0) as [m |] eqn:E; [| reflexivity].
      rewrite !get_cons, assoc_set_same, E. now apply IH.
    + destruct (assoc c es0); [| reflexivity].
      rewrite !get_cons. now rewrite assoc_set_other by congruence.
Qed.

End Disk.

(** ** Paths made of names *)

Section Paths.

Import Os.

Lemma append_assoc (a b c : string) : ((a ++ b) ++ c = a ++ (b ++ c))%string.
Proof. induction a as [| x a IH]; simpl; [reflexivity | now rewrite IH]. Qed.

Lemma append_empty (a : string) : (a ++ "")%string = a.
Proof. induction a as [| x a IH]; simpl; [reflexivity | now rewrite IH]. Qed.

Lemma is_name_spec (s : string) :
  is_name s = true <->
  has_slash s = false /\ s <> "" /\ s <> "." /\ s <> "..".
Proof.
  unfold is_name. rewrite !andb_true_iff, !negb_true_iff, !String.eqb_neq.
  tauto.
Qed.

Lemma split_on_no_slash (a : string) :
  has_slash a = false -> Py.split_on "/" a = [a].
Proof.
  induction a as [| c a IH]; simpl; [reflexivity |].
  intros H. apply orb_false_iff in H. destruct H as [Hc Ha].
  rewrite Hc, (IH Ha). reflexivity.
Qed.

Lemma split_on_slash (a b : string) :
  has_slash a = false ->
  Py.split_on "/" (a ++ String "/" b) = a :: Py.split_on "/" b.
Proof.
  induction a as [| c a IH]; simpl; [reflexivity |].
  intros H. apply orb_false_iff in H. destruct H as [Hc Ha].
  rewrite Hc, (IH Ha). reflexivity.
Qed.

(** The components of names joined with slashes are the names. *)
Lemma components_join (names : list string) :
  names <> [] -> Forall (fun s => has_slash s = false) names ->
  components (Py.join "/" names) = names.
Proof.
  unfold components.
  induction names as [| a names IH]; intros Hne Hall; [contradiction |].
  inversion Hall as [| ? ? Ha Hrest]; subst.
  destruct names as [| b names].
  - simpl. now apply split_on_no_slash.
  - change (Py.join "/" (a :: b :: names))
      with (a ++ String "/" (Py.join "/" (b :: names)))%string.
    rewrite split_on_slash by exact Ha.
    rewrite IH; [reflexivity | discriminate | exact Hrest].
Qed.

Lemma startswith_slash_no_slash (a b : string) :
  a <> "" -> has_slash a = false -> Py.startswith_slash (a ++ b) = false.
Proof.
  destruct a as [| c a]; [contradiction |]. simpl.
  intros _ H. apply orb_false_iff in H. apply H.
Qed.

Lemma endswith_slash_no_slash (a : string) :
  has_slash a = false -> Py.endswith_slash a = false.
Proof.
  induction a as [| c a IH]; [reflexivity |].
  simpl. intros H. apply orb_false_iff in H. destruct H as [Hc Ha].
  destruct a; [exact Hc | now apply IH].
Qed.

Lemma endswith_slash_append (a b : string) :
  b <> "" -> Py.endswith_slash (a ++ b) = Py.endswith_slash b.
Proof.
  intros Hb. induction a as [| c a IH]; [reflexivity |].
  simpl. destruct (a ++ b)%string eqn:E; [| exact IH].
  destruct a; simpl in E; [contradiction | discriminate].
Qed.

Lemma append_not_empty (a b : string) : a <> "" -> String.eqb (a ++ b) "" = false.
Proof. destruct a; [contradiction | reflexivity]. Qed.

(** [os.path.join] of two and of three names. *)
Lemma join_two (a b : string) :
  is_name a = true -> is_name b = true ->
  Path.join a [b] = Py.join "/" [a; b].
Proof.
  intros Ha Hb. apply is_name_spec in Ha, Hb.
  destruct Ha as (Ha1 & Ha2 & _), Hb as (Hb1 & Hb2 & _).
  unfold Path.join, Path.join2. simpl.
  assert (Hs : Py.startswith_slash b = false).
  { destruct b as [| c b]; [reflexivity |]. simpl in *.
    apply orb_false_iff in Hb1. apply Hb1. }
  rewrite Hs, (endswith_slash_no_slash a Ha1).
  apply String.eqb_neq in Ha2. now rewrite Ha2.
Qed.

Lemma join_three (a b c : string) :
  is_name a = true -> is_name b = true -> is_name c = true ->
  Path.join a [b; c] = Py.join "/" [a; b; c].
Proof.
  intros Ha Hb Hc.
  change (Path.join a [b; c]) with (Path.join2 (Path.join a [b]) c).
  rewrite (join_two a b Ha Hb).
  apply is_name_spec in Ha, Hb, Hc.
  destruct Ha as (Ha1 & Ha2 & _), Hb as (Hb1 & Hb2 & _), Hc as (Hc1 & Hc2 & _).
  unfold Path.join2. simpl.
  assert (Hs : Py.startswith_slash c = false).
  { destruct c as [| x c]; [reflexivity |]. simpl in *.
    apply orb_false_iff in Hc1. apply Hc1. }
  rewrite Hs, (append_not_empty a _ Ha2). simpl.
  change (a ++ String "/" b)%string with (a ++ (String "/" "" ++ b))%string.
  rewrite <- append_assoc, endswith_slash_append by exact Hb2.
  rewrite (endswith_slash_no_slash b Hb1).
  now rewrite !append_assoc.
Qed.

Lemma fits_spec (c : string) :
  fits c = true ->
  has_nul c = false /\ Nat.ltb NAME_MAX (String.length c) = false.
Proof.
  unfold fits. rewrite andb_true_iff, negb_true_iff, Nat.leb_le, Nat.ltb_ge. tauto.
Qed.

Lemma walk_names (root : node) (names : list string) :
  forall cur,
    Forall (fun s => is_name s = true) names ->
    dirs_along root cur names ->
    walk root cur names = Ok (cur ++ names).
Proof.
  induction names as [| c rest IH]; intros cur Hall Hdirs; simpl.
  - now rewrite app_nil_r.
  - inversion Hall as [| ? ? Hc Hrest]; subst.
    destruct Hdirs as [(es & Hcur & Hthere) Hdirs].
    apply is_name_spec in Hc. destruct Hc as (_ & H1 & H2 & H3).
    apply String.eqb_neq in H1, H2, H3. rewrite H1, H2, H3, Hcur.
    assert (Hgo : walk root (cur ++ [c]) rest = Ok (cur ++ c :: rest))
      by (rewrite (IH _ Hrest Hdirs); now rewrite <- app_assoc).
    destruct (assoc c es) eqn:E; [exact Hgo |].
    destruct Hthere as [Hthere | Hfits]; [congruence |].
    apply fits_spec in Hfits. destruct Hfits as [-> ->]. exact Hgo.
Qed.

(** What exists is reached through directories that list it. *)
Lemma dirs_along_get (root : node) (names : list string) :
  forall cur m, get (cur ++ names) root = Some m -> dirs_along root cur names.
Proof.
  induction names as [| c rest IH]; intros cur m H; simpl; [exact I |].
  split.
  - change (cur ++ c :: rest) with (cur ++ [c] ++ rest) in H.
    rewrite app_assoc, get_app in H.
    destruct (get (cur ++ [c]) root) as [k |] eqn:E; [| discriminate].
    apply get_parent in E. destruct E as (es & Hcur & Hc).
    exists es. split; [exact Hcur | left; congruence].
  - apply (IH (cur ++ [c]) m). now rewrite <- app_assoc.
Qed.

(** One more name, new or not, in a directory that is reached. *)
Lemma dirs_along_last (root : node) (names : list string) (c : string) :
  forall cur,
    dirs_along root cur names ->
    (exists es, get (cur ++ names) root = Some (Dir es)
                /\ (assoc c es <> None \/ fits c = true)) ->
    dirs_along root cur (names ++ [c]).
Proof.
  induction names as [| x rest IH]; intros cur Hdirs Hlast; simpl.
  - rewrite app_nil_r in Hlast. split; [exact Hlast | exact I].
  - destruct Hdirs as [Hx Hdirs]. split; [exact Hx |].
    apply IH; [exact Hdirs |]. now rewrite <- app_assoc.
Qed.

(** A relative path of names resolves to the names below the working
    directory, when the directories on the way exist. *)
Lemma resolve_names (cwd : list string) (root : node) (names : list string) :
  names <> [] ->
  Forall (fun s => is_name s = true) names ->
  dirs_along root cwd names ->
  resolve cwd root (Py.join "/" names) = Ok (cwd ++ names).
Proof.
  intros Hne Hall Hdirs. unfold resolve.
  assert (Hns : Forall (fun s => has_slash s = false) names).
  { eapply Forall_impl; [| exact Hall]. intros s Hs. now apply is_name_spec in Hs. }
  rewrite (components_join names Hne Hns).
  destruct names as [| a names]; [contradiction |].
  inversion Hall as [| ? ? Ha _]; subst.
  apply is_name_spec in Ha. destruct Ha as (Ha1 & Ha2 & _).
  assert (Hj : exists b, Py.join "/" (a :: names) = (a ++ b)%string).
  { destruct names; simpl; [exists ""; now rewrite append_empty | eauto]. }
  destruct Hj as [b ->].
  rewrite (append_not_empty a b Ha2), (startswith_slash_no_slash a b Ha2 Ha1).
  now apply walk_names.
Qed.

End Paths.

(** ** More on the disk *)

Section DiskMore.

Import Os.

Lemma assoc_unset_same (k : string) (es : list (string * node)) :
  assoc k (unset k es) = None.
Proof.
  induction es as [| [k' v'] es IH]; simpl; [reflexivity |].
  destruct (String.eqb k' k) eqn:E; simpl; [exact IH | now rewrite E].
Qed.

(** What [del] removes is gone. *)
Lemma get_del_same (s : list string) (n : node) :
  s <> [] -> get s (del s n) = None.
Proof.
  revert n. induction s as [| c s IH]; intros n Hs; [contradiction |].
  destruct n as [? | es]; [reflexivity |].
  destruct s as [| c' s].
  - simpl. now rewrite assoc_unset_same.
  - rewrite del_cons. destruct (assoc c es) as [m |] eqn:E.
    + rewrite get_cons, assoc_set_same. apply IH. discriminate.
    + rewrite get_cons. now rewrite E.
Qed.

(** Removing at a location leaves every location beside it as it was. *)
Lemma get_del_beside (q s : list string) (n : node) :
  is_prefix s q = false -> is_prefix q s = false ->
  get q (del s n) = get q n.
Proof.
  revert s n. induction q as [| a q IH]; intros s n Hs Hq; [discriminate |].
  destruct s as [| c s]; [discriminate |].
  simpl in Hs, Hq.
  destruct n as [? | es0]; [reflexivity |].
  destruct s as [| c' s].
  - destruct (String.eqb_spec c a) as [-> | Hne]; [discriminate |].
    simpl. now rewrite assoc_unset_other by congruence.
  - rewrite del_cons.
    destruct (String.eqb_spec c a) as [-> | Hne].
    + rewrite String.eqb_refl in Hq. simpl in Hq.
      destruct (assoc a es0) as [m |] eqn:E; [| reflexivity].
      rewrite !get_cons, assoc_set_same, E. now apply IH.
    + destruct (assoc c es0); [| reflexivity].
      rewrite !get_cons. now rewrite assoc_set_other by congruence.
Qed.

Lemma normalize_from (names acc : list string) :
  Forall (fun s => is_name s = true) names ->
  fold_left
    (fun acc c =>
       if String.eqb c "" || String.eqb c "." then acc
       else if String.eqb c ".." then removelast acc
       else acc ++ [c])
    names acc
  = acc ++ names.
Proof.
  revert acc. induction names as [| c rest IH]; intros acc H; simpl.
  - now rewrite app_nil_r.
  - inversion H as [| ? ? Hc Hrest]; subst.
    apply is_name_spec in Hc. destruct Hc as (_ & H1 & H2 & H3).
    apply String.eqb_neq in H1, H2, H3. rewrite H1, H2, H3. simpl.
    rewrite (IH _ Hrest). now rewrite <- app_assoc.
Qed.

Lemma join_names_relative (names : list string) :
  names <> [] -> Forall (fun s => is_name s = true) names ->
  Py.startswith_slash (Py.join "/" names) = false.
Proof.
  intros Hne Hall. destruct names as [| a names]; [contradiction |].
  inversion Hall as [| ? ? Ha _]; subst.
  apply is_name_spec in Ha. destruct Ha as (Ha1 & Ha2 & _).
  assert (Hj : exists b, Py.join "/" (a :: names) = (a ++ b)%string).
  { destruct names; simpl; [exists ""; now rewrite append_empty | eauto]. }
  destruct Hj as [b ->]. now apply startswith_slash_no_slash.
Qed.

Lemma names_no_slash (names : list string) :
  Forall (fun s => is_name s = true) names ->
  Forall (fun s => has_slash s = false) names.
Proof.
  intros H. eapply Forall_impl; [| exact H]. intros s Hs. now apply is_name_spec in Hs.
Qed.

(** [os.path.abspath] of a relative path of names, in a working directory
    of names. *)
Lemma abspath_names (cwd names : list string) :
  Forall (fun s => is_name s = true) cwd ->
  names <> [] -> Forall (fun s => is_name s = true) names ->
  Path.abspath cwd (Py.join "/" names) = ("/" ++ Py.join "/" (cwd ++ names))%string.
Proof.
  intros Hcwd Hne Hall. unfold Path.abspath.
  rewrite (join_names_relative names Hne Hall).
  rewrite (components_join names Hne (names_no_slash names Hall)).
  unfold Path.normalize. rewrite normalize_from; [reflexivity |].
  apply Forall_app. now split.
Qed.

(** An absolute path of names resolves to the names, from any working
    directory, when the location exists. *)
Lemma resolve_absolute (cwd : list string) (root m : node) (names : list string) :
  names <> [] -> Forall (fun s => is_name s = true) names ->
  get names root = Some m ->
  resolve cwd root ("/" ++ Py.join "/" names) = Ok names.
Proof.
  intros Hne Hall Hget. unfold resolve.
  change (String.eqb ("/" ++ Py.join "/" names) "") with false.
  change (Py.startswith_slash ("/" ++ Py.join "/" names)) with true.
  cbv iota.
  change (components ("/" ++ Py.join "/" names))
    with ("" :: components (Py.join "/" names)).
  rewrite (components_join names Hne (names_no_slash names Hall)).
  change (walk root [] ("" :: names)) with (walk root [] names).
  apply (walk_names root names []); [exact Hall |].
  now apply (dirs_along_get root names [] m).
Qed.

End DiskMore.

(** ** Pictures on the disk *)

Section Pictures.

Import Os.

Variable w : Env.

Lemma icons_open_Dir (es : list (string * node)) :
  icons_open w (Dir es) <-> entries_open w es.
Proof.
  unfold entries_open. induction es as [| [k v] es IH].
  - simpl. split; [constructor | exact (fun _ => I)].
  - rewrite Forall_cons_iff, <- IH. unfold entry_ok. simpl. tauto.
Qed.

Lemma entries_assoc (k : string) (v : node) (es : list (string * node)) :
  entries_open w es -> assoc k es = Some v -> entry_ok w k v.
Proof.
  unfold entries_open. induction es as [| [k' v'] es IH]; simpl; [discriminate |].
  intros H. inversion H as [| ? ? Hkv Hes]; subst. simpl in Hkv.
  destruct (String.eqb_spec k' k) as [-> | Hne]; [| now apply IH].
  now intros [= <-].
Qed.

Lemma entries_set (k : string) (v : node) (es : list (string * node)) :
  entries_open w es -> entry_ok w k v -> entries_open w (set k v es).
Proof.
  unfold entries_open. intros H Hv. induction es as [| [k' v'] es IH]; simpl.
  - constructor; [exact Hv | constructor].
  - inversion H as [| ? ? Hkv Hes]; subst.
    destruct (String.eqb k' k); constructor; auto.
Qed.

Lemma entries_unset (k : string) (es : list (string * node)) :
  entries_open w es -> entries_open w (unset k es).
Proof.
  unfold entries_open. intros H. induction es as [| [k' v'] es IH]; simpl; [constructor |].
  inversion H as [| ? ? Hkv Hes]; subst.
  destruct (String.eqb k' k); [now apply IH | constructor; auto].
Qed.

(** Below a disk whose pictures open, the pictures open. *)
Lemma icons_get (p : list string) (n m : node) :
  icons_open w n -> get p n = Some m -> icons_open w m.
Proof.
  revert n. induction p as [| c p IH]; intros n Hn H.
  - simpl in H. now injection H as <-.
  - destruct n as [? | es]; [discriminate |].
    rewrite get_cons in H. destruct (assoc c es) as [k |] eqn:E; [| discriminate].
    apply (IH k); [| exact H].
    apply icons_open_Dir in Hn. exact (proj2 (entries_assoc c k es Hn E)).
Qed.

Lemma icons_file (p : list string) (n : node) (content : string) :
  icons_open w n -> get (p ++ ["icon.png"]) n = Some (File content) ->
  image_open w content = Ok tt.
Proof.
  intros Hn H. apply get_parent in H. destruct H as (es & Hp & Hc).
  assert (Hes := icons_get p n (Dir es) Hn Hp). apply icons_open_Dir in Hes.
  exact (proj1 (entries_assoc _ _ es Hes Hc) eq_refl content eq_refl).
Qed.

(** Storing an entry that is in order keeps the pictures in order. *)
Lemma icons_put (p : list string) (v n : node) :
  icons_open w n -> entry_ok w (last p "") v -> icons_open w (put p v n).
Proof.
  revert n. induction p as [| c p IH]; intros n Hn Hv.
  - exact (proj2 Hv).
  - destruct n as [? | es]; [exact Hn |].
    pose proof Hn as Hes. apply icons_open_Dir in Hes.
    destruct p as [| c' p].
    + simpl. apply icons_open_Dir. now apply entries_set.
    + rewrite put_cons. destruct (assoc c es) as [m |] eqn:E; [| exact Hn].
      apply icons_open_Dir. apply entries_set; [exact Hes |].
      destruct (entries_assoc c m es Hes E) as [Hpic Hm].
      split; [| now apply IH].
      intros Hc content Hfile. destruct m as [x | es'].
      * simpl in Hfile. apply (Hpic Hc content). exact Hfile.
      * rewrite put_cons in Hfile || simpl in Hfile.
        destruct p; [discriminate |]. destruct (assoc c' es'); discriminate.
Qed.

(** So does a removal. *)
Lemma icons_del (p : list string) (n : node) :
  icons_open w n -> icons_open w (del p n).
Proof.
  revert n. induction p as [| c p IH]; intros n Hn; [exact Hn |].
  destruct n as [? | es]; [exact Hn |].
  pose proof Hn as Hes. apply icons_open_Dir in Hes.
  destruct p as [| c' p].
  - simpl. apply icons_open_Dir. now apply entries_unset.
  - rewrite del_cons. destruct (assoc c es) as [m |] eqn:E; [| exact Hn].
    apply icons_open_Dir. apply entries_set; [exact Hes |].
    destruct (entries_assoc c m es Hes E) as [Hpic Hm].
    split; [| now apply IH].
    intros Hc content Hfile. destruct m as [x | es'].
    + simpl in Hfile. apply (Hpic Hc content). exact Hfile.
    + simpl in Hfile. destruct p; [discriminate |]. destruct (assoc c' es'); discriminate.
Qed.

Lemma split_on_nonempty (sep : ascii) (s : string) : Py.split_on sep s <> [].
Proof.
  destruct s as [| c s]; simpl; [discriminate |].
  destruct (Ascii.eqb c sep); [discriminate |].
  destruct (Py.split_on sep s); discriminate.
Qed.

(** Splitting around one separator. *)
Lemma split_on_around (sep : ascii) (a b : string) :
  Py.split_on sep (a ++ String sep b) = Py.split_on sep a ++ Py.split_on sep b.
Proof.
  induction a as [| c a IH]; simpl.
  - now rewrite Ascii.eqb_refl.
  - destruct (Ascii.eqb c sep); [now rewrite IH |].
    rewrite IH. destruct (Py.split_on sep a) as [| h t] eqn:E; [| reflexivity].
    now apply split_on_nonempty in E.
Qed.

Lemma endswith_slash_last (x : string) :
  Py.endswith_slash x = true -> exists x', x = (x' ++ String "/" "")%string.
Proof.
  induction x as [| c x IH]; [discriminate |].
  destruct x as [| c' x].
  - simpl. intros H. apply Ascii.eqb_eq in H. subst. now exists "".
  - intros H. destruct (IH H) as [x' ->]. now exists (String c x').
Qed.

(** The last component of a path joined with [icon.png]. *)
Lemma components_icon (x : string) :
  exists l, components (Path.join2 x "icon.png") = l ++ ["icon.png"].
Proof.
  unfold components, Path.join2.
  change (Py.startswith_slash "icon.png") with false. cbv iota.
  destruct (String.eqb_spec x "") as [-> | Hx]; simpl orb.
  - now exists [].
  - destruct (Py.endswith_slash x) eqn:E.
    + destruct (endswith_slash_last x E) as [x' ->].
      rewrite append_assoc. change (String "/" "" ++ "icon.png")%string
        with (String "/" "icon.png").
      rewrite split_on_around. now exists (Py.split_on "/" x').
    + change (x ++ "/" ++ "icon.png")%string with (x ++ String "/" "icon.png")%string.
      rewrite split_on_around. now exists (Py.split_on "/" x).
Qed.

Lemma walk_app (root : node) (l1 l2 : list string) :
  forall cur,
    walk root cur (l1 ++ l2)
    = match walk root cur l1 with
      | Ok c => walk root c l2
      | Raise e => Raise e
      end.
Proof.
  induction l1 as [| c l1 IH]; intros cur; simpl; [reflexivity |].
  destruct (String.eqb c ""); [apply IH |].
  destruct (get cur root) as [[? | es] |]; try reflexivity.
  destruct (String.eqb c "."); [apply IH |].
  destruct (String.eqb c ".."); [apply IH |].
  destruct (assoc c es); [apply IH |].
  destruct (has_nul c); [reflexivity |].
  destruct (Nat.ltb NAME_MAX (String.length c)); [reflexivity | apply IH].
Qed.

(** The file [load_image] opens is named [icon.png]. *)
Lemma file_at_icon (cwd : list string) (d : node) (a n content : string) :
  file_at cwd d (Path.join a [n; "icon.png"]) = Some content ->
  exists cur, get (cur ++ ["icon.png"]) d = Some (File content).
Proof.
  unfold file_at, resolve.
  change (Path.join a [n; "icon.png"]) with (Path.join2 (Path.join2 a n) "icon.png").
  destruct (String.eqb (Path.join2 (Path.join2 a n) "icon.png") ""); [discriminate |].
  destruct (components_icon (Path.join2 a n)) as [l ->].
  rewrite walk_app.
  destruct (walk d _ l) as [cur | x]; [| discriminate].
  assert (Hlast : forall p, walk d cur ["icon.png"] = Ok p -> p = cur ++ ["icon.png"]).
  { intros p. simpl walk.
    change (String.eqb "icon.png" "") with false.
    change (String.eqb "icon.png" ".") with false.
    change (String.eqb "icon.png" "..") with false.
    change (has_nul "icon.png") with false.
    change (Nat.ltb NAME_MAX (String.length "icon.png")) with false.
    cbv iota.
    destruct (get cur d) as [[? | es] |]; try discriminate.
    destruct (assoc "icon.png" es); now intros [= <-]. }
  destruct (walk d cur ["icon.png"]) as [p |] eqn:E; [| discriminate].
  rewrite (Hlast p eq_refl).
  destruct (get (cur ++ ["icon.png"]) d) as [[c |] |] eqn:G; try discriminate.
  intros [= ->]. now exists cur.
Qed.

(** On a disk whose pictures open, the picture of every game loads. *)
Lemma load_image_ok (d : node) (n : string) (emu : Emulator) :
  icons_open w d -> load_image w d n emu = Ok tt.
Proof.
  intros Hd. unfold load_image.
  destruct (file_at (getcwd w) d (Path.join (id emu) [n; "icon.png"])) as [content |] eqn:E;
    [| reflexivity].
  destruct (file_at_icon _ _ _ _ _ E) as [cur Hcur].
  exact (icons_file cur d content Hd Hcur).
Qed.

End Pictures.

(** ** The catalog *)

Section Catalog.

Variable w : Env.

Lemma for_each_Game_init (emu : Emulator) (found : list string) (st : App) :
  (forall n, In n found -> load_image w (disk st) n emu = Ok tt) ->
  for_each found (fun game => Game_init w game emu) st
  = (Ok tt, with_games (games st ++ map (fun n => new_Game w n emu) found) st).
Proof.
  revert st. induction found as [| n found IH]; intros st Hpic; simpl.
  - unfold ret, with_games. rewrite app_nil_r. now destruct st.
  - unfold bind at 1. unfold Game_init, bind, modify.
    change (disk (with_games (games st ++ [new_Game w n emu]) st)) with (disk st).
    rewrite (Hpic n) by now left.
    rewrite IH.
    + unfold with_games. simpl. now rewrite <- app_assoc.
    + intros n' Hn'. apply Hpic. now right.
Qed.

Lemma load_from_ok (listing : Emulator -> list string) (registry : list Emulator) :
  forall st,
    (forall e, In e registry ->
       Os.listdir (getcwd w) (disk st) (id e) = Ok (listing e)) ->
    icons_open w (disk st) ->
    load_from w registry st
    = (Ok tt, with_games (games st ++ flat_map (games_of w listing) registry) st).
Proof.
  unfold load_from.
  induction registry as [| e rest IH]; intros st Hl Hpic; simpl.
  - unfold ret, with_games. rewrite app_nil_r. now destruct st.
  - unfold bind at 1. unfold bind at 1. unfold listdir, bind, os_listdir, ret.
    rewrite (Hl e) by now left.
    rewrite for_each_Game_init by (intros n _; now apply load_image_ok).
    rewrite IH.
    + unfold with_games, games_of. simpl. now rewrite <- app_assoc.
    + intros e' He'. simpl. apply Hl. now right.
    + exact Hpic.
Qed.

Lemma keep_games_In (app d : string) (listing : list string) :
  In d (keep_games app listing) <-> In d listing /\ ~ In d (reserved app).
Proof.
  unfold keep_games, is_reserved. rewrite filter_In, negb_true_iff.
  split; intros [H1 H2]; split; auto.
  - intros Hin. assert (E : existsb (String.eqb d) (reserved app) = true).
    { apply existsb_exists. exists d. split; [exact Hin | apply String.eqb_refl]. }
    congruence.
  - destruct (existsb (String.eqb d) (reserved app)) eqn:E; [| reflexivity].
    apply existsb_exists in E. destruct E as (r & Hr & E).
    apply String.eqb_eq in E. subst. contradiction.
Qed.


End Catalog.

(** No file of [disk0] is named [icon.png]. *)
Lemma disk0_icons_open (w : Env) : icons_open w disk0.
Proof. simpl. repeat split; discriminate. Qed.




(** ** The steps of add-game on the disk *)

Section AddGameSteps.

Import Os.

Variable cwd : list string.

(** A directory that [os.mkdir] made is on the new disk, empty, at a
    location where nothing was; the rest of the disk is as [put] leaves
    it. *)
Lemma mkdir_creates (root d1 : node) (dir : string) :
  mkdir cwd root dir = Ok d1 ->
  exists p, resolve cwd root dir = Ok p /\ get p root = None
            /\ d1 = put p (Dir []) root /\ get p d1 = Some (Dir []).
Proof.
  unfold mkdir, rbind. destruct (resolve cwd root dir) as [p | x]; [| discriminate].
  destruct (get p root) eqn:Hp; [discriminate |].
  destruct (get (removelast p) root) as [[? | es] |] eqn:Hparent; try discriminate.
  intros [= <-]. exists p. repeat split; auto.
  apply get_put_same; [| eauto].
  intros ->. discriminate Hp.
Qed.

Lemma path_eqb_length (p q : list string) :
  path_eqb p q = true -> List.length p = List.length q.
Proof.
  revert q. induction p as [| a p IH]; intros [| b q]; simpl; try discriminate; auto.
  rewrite andb_true_iff. intros [_ H]. now rewrite (IH _ H).
Qed.

(** [os.listdir] of a directory named in the working directory. *)
Lemma listdir_names (root : node) (a : string) (es : list (string * node)) :
  is_name a = true ->
  get (cwd ++ [a]) root = Some (Dir es) ->
  listdir cwd root a = Ok (map fst es).
Proof.
  intros Ha H.
  assert (Hr : resolve cwd root a = Ok (cwd ++ [a])).
  { apply (resolve_names cwd root [a]).
    - discriminate.
    - now constructor.
    - exact (dirs_along_get root [a] cwd _ H). }
  unfold listdir, rbind. now rewrite Hr, H.
Qed.

(** [os.mkdir] of a new name in an existing directory. *)
Lemma mkdir_new (root : node) (a b : string) :
  is_name a = true -> is_name b = true -> fits b = true ->
  (exists es, get (cwd ++ [a]) root = Some (Dir es)) ->
  get (cwd ++ [a; b]) root = None ->
  mkdir cwd root (Path.join a [b]) = Ok (put (cwd ++ [a; b]) (Dir []) root).
Proof.
  intros Ha Hb Hfits [es Hdir] Hnew.
  assert (Hr : resolve cwd root (Path.join a [b]) = Ok (cwd ++ [a; b])).
  { rewrite (join_two a b Ha Hb). apply resolve_names.
    - discriminate.
    - now repeat constructor.
    - apply (dirs_along_last root [a] b cwd).
      + exact (dirs_along_get root [a] cwd _ Hdir).
      + exists es. split; [exact Hdir | now right]. }
  assert (Hparent : removelast (cwd ++ [a; b]) = cwd ++ [a])
    by (rewrite removelast_app by discriminate; reflexivity).
  unfold mkdir, rbind. now rewrite Hr, Hnew, Hparent, Hdir.
Qed.

(** [os.rename] of a source file into a directory that was just made. *)
Lemma rename_into_new (root moved : node) (file a b g : string) :
  is_name file = true -> is_name a = true -> is_name b = true -> is_name g = true ->
  fits g = true ->
  a <> "rom zips" ->
  get (cwd ++ ["rom zips"; file]) root = Some moved ->
  get (cwd ++ [a; b]) root = Some (Dir []) ->
  rename cwd root ("rom zips/" ++ file) (Path.join a [b; g])
  = Ok (put (cwd ++ [a; b; g]) moved (del (cwd ++ ["rom zips"; file]) root)).
Proof.
  intros Hfile Ha Hb Hg Hfits Hne Hsrc Hdir.
  assert (Hs : resolve cwd root ("rom zips/" ++ file) = Ok (cwd ++ ["rom zips"; file])).
  { apply (resolve_names cwd root ["rom zips"; file]).
    - discriminate.
    - now repeat constructor.
    - exact (dirs_along_get root ["rom zips"; file] cwd _ Hsrc). }
  assert (Hd : resolve cwd root (Path.join a [b; g]) = Ok (cwd ++ [a; b; g])).
  { rewrite (join_three a b g Ha Hb Hg). apply resolve_names.
    - discriminate.
    - now repeat constructor.
    - apply (dirs_along_last root [a; b] g cwd).
      + exact (dirs_along_get root [a; b] cwd _ Hdir).
      + exists []. split; [exact Hdir | now right]. }
  assert (Heq : path_eqb (cwd ++ ["rom zips"; file]) (cwd ++ [a; b; g]) = false).
  { destruct (path_eqb _ _) eqn:E; [| reflexivity].
    apply path_eqb_length in E. rewrite !length_app in E. simpl in E. lia. }
  assert (Hpre : is_prefix (cwd ++ ["rom zips"; file]) (cwd ++ [a; b; g]) = false).
  { rewrite is_prefix_app_common.
    assert (E : String.eqb "rom zips" a = false) by (apply String.eqb_neq; congruence).
    unfold is_prefix. now rewrite E. }
  assert (Hparent : removelast (cwd ++ [a; b; g]) = cwd ++ [a; b])
    by (rewrite removelast_app by discriminate; reflexivity).
  assert (Hnone : get (cwd ++ [a; b; g]) root = None).
  { change (cwd ++ [a; b; g]) with (cwd ++ [a; b] ++ [g]). rewrite app_assoc.
    apply get_below_empty; [discriminate | exact Hdir]. }
  unfold rename, rbind.
  rewrite Hs, Hsrc, Hd, Heq, Hpre, Hparent, Hdir, Hnone.
  now destruct moved.
Qed.

End AddGameSteps.

Lemma is_prefix_beside (c : list string) (x y : string) (p q : list string) :
  x <> y -> Os.is_prefix (c ++ x :: p) (c ++ y :: q) = false.
Proof.
  intros H. rewrite is_prefix_app_common.
  change (String.eqb x y && Os.is_prefix p q = false).
  apply String.eqb_neq in H. now rewrite H.
Qed.

Section AddGame.

Variable w : Env.

Lemma registry_names (e : Emulator) :
  In e ALL ->
  Os.is_name (id e) = true /\ id e <> "rom zips"
  /\ Os.is_name ("game." ++ ext e) = true.
Proof.
  simpl. intros [<- | [<- | [<- | [<- | []]]]]; repeat split; discriminate.
Qed.

Lemma from_ext_In (x : string) (emu : Emulator) :
  from_ext x = Some emu -> In emu ALL /\ ext emu = x.
Proof.
  intros H. apply from_ext_in_first in H. destruct H as (l1 & l2 & Hall & Hx & _).
  split; [| exact Hx]. rewrite Hall. apply in_elt.
Qed.


Lemma registry_fits (e : Emulator) :
  In e ALL ->
  Os.fits ("game." ++ ext e) = true /\ ("game." ++ ext e)%string <> "icon.png".
Proof.
  simpl. intros [<- | [<- | [<- | [<- | []]]]]; split; (reflexivity || discriminate).
Qed.

Lemma last_snoc (l : list string) (x d : string) : last (l ++ [x]) d = x.
Proof.
  induction l as [| y l IH]; [reflexivity |].
  simpl. destruct (l ++ [x]) eqn:E; [destruct l; discriminate | exact IH].
Qed.

(** The disk after the directory of a new game was made and the source
    file moved into it: both calls return, the file is the game file, it
    has left the source directory, there is no [icon.png] yet, the
    directories of the emulators are in place and the pictures open. *)
Lemma move_steps (root moved : Os.node) (file b : string) (emu : Emulator) :
  In emu ALL ->
  Os.is_name file = true ->
  Os.is_name b = true ->
  Os.fits b = true ->
  (forall e, In e ALL ->
     exists es, Os.get (getcwd w ++ [id e]) root = Some (Os.Dir es)) ->
  Os.get (getcwd w ++ ["rom zips"; file]) root = Some moved ->
  Os.get (getcwd w ++ [id emu; b]) root = None ->
  icons_open w root ->
  let g := ("game." ++ ext emu)%string in
  let d1 := Os.put (getcwd w ++ [id emu; b]) (Os.Dir []) root in
  let d2 := Os.put (getcwd w ++ [id emu; b; g]) moved
              (Os.del (getcwd w ++ ["rom zips"; file]) d1) in
  Os.mkdir (getcwd w) root (Path.join (id emu) [b]) = Ok d1
  /\ Os.rename (getcwd w) d1 ("rom zips/" ++ file) (Path.join (id emu) [b; g]) = Ok d2
  /\ Os.get (getcwd w ++ [id emu; b; g]) d2 = Some moved
  /\ Os.get (getcwd w ++ ["rom zips"; file]) d2 = None
  /\ Os.get (getcwd w ++ [id emu; b; "icon.png"]) d2 = None
  /\ (forall e, In e ALL ->
        exists es, Os.get (getcwd w ++ [id e]) d2 = Some (Os.Dir es))
  /\ icons_open w d2.
Proof.
  intros Hin Hfile Hname Hfits Hdirs Hsrc Hnew Hpic g d1 d2.
  destruct (registry_names emu Hin) as (Ha & Hrz & Hg).
  destruct (registry_fits emu Hin) as (Hgfits & Hgi).
  set (C := getcwd w) in *. set (a := id emu) in *.
  set (s := C ++ ["rom zips"; file]) in *.
  assert (Hrza : "rom zips" <> a) by (intros E; apply Hrz; symmetry; exact E).
  assert (Hig : "icon.png" <> g) by (intros E; apply Hgi; symmetry; exact E).
  assert (Hsplit : forall x, C ++ [a; b; x] = (C ++ [a; b]) ++ [x])
    by (intros x; now rewrite <- app_assoc).
  assert (Hmk : Os.mkdir C root (Path.join a [b]) = Ok d1)
    by (apply mkdir_new; [exact Ha | exact Hname | exact Hfits | apply Hdirs, Hin
                         | exact Hnew]).
  assert (Hnew1 : Os.get (C ++ [a; b]) d1 = Some (Os.Dir [])).
  { apply get_put_same.
    - destruct C; discriminate.
    - rewrite removelast_app by discriminate. apply Hdirs, Hin. }
  assert (Hsrc1 : Os.get s d1 = Some moved).
  { unfold d1, s. rewrite get_put_beside; [exact Hsrc | |];
      apply is_prefix_beside; assumption. }
  assert (Hrn : Os.rename C d1 ("rom zips/" ++ file) (Path.join a [b; g]) = Ok d2)
    by (apply rename_into_new; assumption).
  assert (Hgame : Os.get (C ++ [a; b; g]) d2 = Some moved).
  { apply get_put_same.
    - destruct C; discriminate.
    - rewrite removelast_app by discriminate.
      apply del_keeps_dir; [| exists []; exact Hnew1].
      unfold s. now apply is_prefix_beside. }
  assert (Hsrc2 : Os.get s d2 = None).
  { unfold d2. rewrite get_put_beside.
    - apply get_del_same. unfold s. destruct C; discriminate.
    - unfold s. now apply is_prefix_beside.
    - unfold s. now apply is_prefix_beside. }
  assert (Hicon2 : Os.get (C ++ [a; b; "icon.png"]) d2 = None).
  { unfold d2. rewrite get_put_beside.
    - rewrite get_del_beside.
      + rewrite Hsplit. apply get_below_empty; [discriminate | exact Hnew1].
      + unfold s. now apply is_prefix_beside.
      + unfold s. now apply is_prefix_beside.
    - rewrite !Hsplit. now apply is_prefix_beside.
    - rewrite !Hsplit. now apply is_prefix_beside. }
  assert (Hdirs2 : forall e', In e' ALL ->
            exists es, Os.get (C ++ [id e']) d2 = Some (Os.Dir es)).
  { intros e' He'. unfold d2, d1, s.
    apply put_keeps_dir; [apply is_prefix_longer; simpl; lia |].
    apply del_keeps_dir; [apply is_prefix_longer; simpl; lia |].
    apply put_keeps_dir; [apply is_prefix_longer; simpl; lia |].
    now apply Hdirs. }
  assert (Hpic2 : icons_open w d2).
  { unfold d2, d1. apply icons_put.
    - apply icons_del. apply icons_put; [exact Hpic |].
      split; [discriminate | exact I].
    - rewrite Hsplit, last_snoc. split.
      + intros E. now elim Hgi.
      + exact (icons_get w s root moved Hpic Hsrc). }
  repeat split; assumption.
Qed.

(** The directories of the emulators can be listed when they exist. *)
Lemma emulators_listed (d : Os.node) :
  (forall e, In e ALL -> exists es, Os.get (getcwd w ++ [id e]) d = Some (Os.Dir es)) ->
  exists listing,
    forall e, In e ALL -> Os.listdir (getcwd w) d (id e) = Ok (listing e).
Proof.
  intros H.
  exists (fun e => match Os.listdir (getcwd w) d (id e) with Ok l => l | Raise _ => [] end).
  intros e He. destruct (H e He) as [es Hes].
  now rewrite (listdir_names (getcwd w) d (id e) es (proj1 (registry_names e He)) Hes).
Qed.


(** The catalog of a disk has a game whose directory is in the directory of
    its emulator, if its name is not one [listdir] leaves out. *)
Lemma catalog_has_game (d m : Os.node) (listing : Emulator -> list string)
      (emu : Emulator) (n g : string) :
  In emu ALL ->
  is_reserved (id emu) n = false ->
  Os.get (getcwd w ++ [id emu; n; g]) d = Some m ->
  (forall e, In e ALL -> Os.listdir (getcwd w) d (id e) = Ok (listing e)) ->
  In (new_Game w n emu) (sort_games (flat_map (games_of w listing) ALL)).
Proof.
  intros Hin Hres Hgame Hlist.
  apply (Permutation_in _ (sort_games_perm _)).
  apply in_flat_map. exists emu. split; [exact Hin |].
  unfold games_of. apply (in_map (fun n0 => new_Game w n0 emu)).
  apply keep_games_In. split.
  - change (getcwd w ++ [id emu; n; g]) with (getcwd w ++ [id emu; n] ++ [g]) in Hgame.
    rewrite app_assoc in Hgame.
    apply get_parent in Hgame. destruct Hgame as (es1 & Hdir & _).
    change (getcwd w ++ [id emu; n]) with (getcwd w ++ [id emu] ++ [n]) in Hdir.
    rewrite app_assoc in Hdir.
    apply get_parent in Hdir. destruct Hdir as (es & Hemu & Hentry).
    assert (Hl := listdir_names (getcwd w) d (id emu) es
                    (proj1 (registry_names emu Hin)) Hemu).
    rewrite (Hlist emu Hin) in Hl. injection Hl as ->.
    exact (assoc_In _ _ _ Hentry).
  - intros Hr. unfold is_reserved in Hres.
    assert (E : existsb (String.eqb n) (reserved (id emu)) = true).
    { apply existsb_exists. exists n. split; [exact Hr | apply String.eqb_refl]. }
    congruence.
Qed.

End AddGame.

(** ** Adding a game *)

(** C3, as the claim states it, fails: for a source file with an extension
    no emulator has, [add_game] returns normally; it raises nothing, prints
    nothing and leaves the add-game window shown. *)
Lemma unsupported_extension_not_reported :
  from_ext (Py.tail (Path.splitext_ext "notes.txt")) = None
  /\ add_game world_offline "notes.txt" "Notes" "http://icons/notes.png" app0
     = (Ok tt, app0)
  /\ stdout app0 = [] /\ add_game_shown app0 = true.
Proof. repeat split; reflexivity. Qed.

(** C3, amended.  For a source file whose extension no registered emulator
    has, [add_game] returns at once without raising or reporting anything:
    the state is the one it started from, so no directory is created, the
    source file is not moved, the catalog is not reloaded and the window
    stays. *)
Theorem unsupported_extension_no_effect :
  forall (w : Env) (file name_input icon_input : string) (st : App),
    (forall e, In e ALL -> ext e <> Py.tail (Path.splitext_ext file)) ->
    add_game w file name_input icon_input st = (Ok tt, st).
Proof.
  intros w file name_input icon_input st H.
  unfold add_game, from_ext.
  apply from_ext_in_none in H. now rewrite H.
Qed.

Lemma unsupported_extension_no_effect_witness :
  add_game world_offline "notes.txt" "Notes" "http://icons/notes.png" app0 = (Ok tt, app0).
Proof.
  apply (unsupported_extension_no_effect world_offline "notes.txt").
  intros e He. simpl in He.
  destruct He as [<- | [<- | [<- | [<- | []]]]]; discriminate.
Defined.

(** C2, as the claim states it, fails: when the source file is gone by the
    time the game is added, the directory of the game is made, the move
    raises [FileNotFoundError], and the empty directory stays on the
    disk. *)
Lemma failed_move_not_cleaned_up :
  Os.get ["opt"; "launcher"; "mgba"; "Zelda"] (disk app0) = None
  /\ fst (add_game world_offline "lost.gba" "Zelda" "http://icons/zelda.png" app0)
     = Raise FileNotFoundError
  /\ Os.get ["opt"; "launcher"; "mgba"; "Zelda"]
       (disk (snd (add_game world_offline "lost.gba" "Zelda" "http://icons/zelda.png" app0)))
     = Some (Os.Dir []).
Proof. repeat split; reflexivity. Qed.

(** C2, amended.  [add_game] makes the directory and then moves the file,
    with no handler and no clean-up: when the move raises after the
    directory was made, [add_game] raises that exception at once (no icon,
    no reload, the window stays), and the disk is left with the new, empty
    directory at a location where nothing was. *)
Theorem failed_move_leaves_directory :
  forall (w : Env) (file name_input icon_input : string) (st : App)
         (emu : Emulator) (d1 : Os.node) (x : exn),
    from_ext (Py.tail (Path.splitext_ext file)) = Some emu ->
    Os.mkdir (getcwd w) (disk st) (Path.join (id emu) [name_input]) = Ok d1 ->
    Os.rename (getcwd w) d1 ("rom zips/" ++ file)
      (Path.join (id emu)
         [name_input; ("game." ++ Py.tail (Path.splitext_ext file))%string])
    = Raise x ->
    add_game w file name_input icon_input st = (Raise x, with_disk d1 st)
    /\ exists p,
         Os.resolve (getcwd w) (disk st) (Path.join (id emu) [name_input]) = Ok p
         /\ Os.get p (disk st) = None
         /\ d1 = Os.put p (Os.Dir []) (disk st)
         /\ Os.get p d1 = Some (Os.Dir []).
Proof.
  intros w file name_input icon_input st emu d1 x Hext Hmk Hrn. split.
  - unfold add_game. rewrite Hext.
    unfold bind at 1. unfold os_mkdir. rewrite Hmk.
    unfold bind at 1. unfold os_rename.
    change (disk (with_disk d1 st)) with d1. now rewrite Hrn.
  - exact (mkdir_creates (getcwd w) (disk st) d1 _ Hmk).
Qed.

Lemma failed_move_leaves_directory_witness :
  add_game world_offline "lost.gba" "Zelda" "http://icons/zelda.png" app0
  = (Raise FileNotFoundError,
     with_disk (Os.put ["opt"; "launcher"; "mgba"; "Zelda"] (Os.Dir []) disk0) app0).
Proof.
  refine (proj1 (failed_move_leaves_directory world_offline "lost.gba" "Zelda"
                   "http://icons/zelda.png" app0 MGBA
                   (Os.put ["opt"; "launcher"; "mgba"; "Zelda"] (Os.Dir []) disk0)
                   FileNotFoundError _ _ _)); reflexivity.
Defined.




(** * Further properties *)

(** ** Resolution by extension *)

(** X1. [from_ext] finds a descriptor exactly when it is registered with
    that extension, and finds none exactly for the extensions other than
    gba, rvz, nds and cci. *)
Theorem from_ext_spec :
  forall x : string,
    (forall d, from_ext x = Some d <-> In d ALL /\ ext d = x)
    /\ (from_ext x = None <-> ~ In x ["gba"; "rvz"; "nds"; "cci"]).
Proof.
  intros x. split.
  - intros d. split; [apply from_ext_In |].
    intros [Hd <-]. simpl in Hd.
    destruct Hd as [<- | [<- | [<- | [<- | []]]]]; reflexivity.
  - unfold from_ext. rewrite from_ext_in_none. split.
    + intros H Hin. simpl in Hin.
      destruct Hin as [<- | [<- | [<- | [<- | []]]]].
      * apply (H MGBA); simpl; auto.
      * apply (H DOLPHIN); simpl; auto.
      * apply (H MELONDS); simpl; auto.
      * apply (H AZAHAR); simpl; auto.
    + intros H e He Hx. apply H. subst x. simpl in He.
      destruct He as [<- | [<- | [<- | [<- | []]]]]; simpl; auto.
Qed.

(** ** Order of names *)

Section NameOrder.

Lemma ascii_compare_refl (a : ascii) : Ascii.compare a a = Eq.
Proof. unfold Ascii.compare. apply N.compare_refl. Qed.

Lemma ascii_compare_lt_trans (a b c : ascii) :
  Ascii.compare a b = Lt -> Ascii.compare b c = Lt -> Ascii.compare a c = Lt.
Proof.
  unfold Ascii.compare. rewrite !N.compare_lt_iff. apply N.lt_trans.
Qed.

Lemma leb_trans (a b c : string) :
  String.leb a b = true -> String.leb b c = true -> String.leb a c = true.
Proof.
  unfold String.leb. revert b c.
  induction a as [| x a IH]; intros [| y b] [| z c]; simpl; try easy.
  destruct (Ascii.compare x y) eqn:Exy; try easy;
    destruct (Ascii.compare y z) eqn:Eyz; try easy.
  - apply Ascii.compare_eq_iff in Exy, Eyz. subst. rewrite ascii_compare_refl.
    apply IH.
  - apply Ascii.compare_eq_iff in Exy. subst. now rewrite Eyz.
  - apply Ascii.compare_eq_iff in Eyz. subst. now rewrite Exy.
  - now rewrite (ascii_compare_lt_trans x y z Exy Eyz).
Qed.

Lemma insert_game_sorted (g : Game) (l : list Game) :
  sorted_by_name l -> sorted_by_name (insert_game g l).
Proof.
  induction l as [| h t IH]; simpl; [auto |].
  intros [Hh Ht].
  destruct (String.leb (name g) (name h)) eqn:E; simpl.
  - repeat split; auto. constructor; [exact E |].
    eapply Forall_impl; [| exact Hh]. intros k Hk. exact (leb_trans _ _ _ E Hk).
  - split; [| now apply IH].
    apply (Permutation_Forall (insert_game_perm g t)). constructor; [| exact Hh].
    destruct (String.leb_total (name g) (name h)); congruence.
Qed.

Lemma sort_games_sorted (l : list Game) : sorted_by_name (sort_games l).
Proof.
  induction l as [| g t IH]; simpl; [exact I |]. now apply insert_game_sorted.
Qed.

Lemma insert_string_perm (s : string) (l : list string) :
  Permutation (s :: l) (insert_string s l).
Proof.
  induction l as [| h t IH]; simpl; [reflexivity |].
  destruct (String.leb s h); [reflexivity |].
  rewrite perm_swap. now constructor.
Qed.

Lemma sorted_perm (l : list string) : Permutation l (sorted l).
Proof.
  induction l as [| s t IH]; simpl; [constructor |].
  rewrite <- insert_string_perm. now constructor.
Qed.

Lemma insert_string_increasing (s : string) (l : list string) :
  increasing l -> increasing (insert_string s l).
Proof.
  induction l as [| h t IH]; simpl; [auto |].
  intros [Hh Ht].
  destruct (String.leb s h) eqn:E; simpl.
  - repeat split; auto. constructor; [exact E |].
    eapply Forall_impl; [| exact Hh]. intros k Hk. exact (leb_trans _ _ _ E Hk).
  - split; [| now apply IH].
    apply (Permutation_Forall (insert_string_perm s t)). constructor; [| exact Hh].
    destruct (String.leb_total s h); congruence.
Qed.

Lemma sorted_increasing (l : list string) : increasing (sorted l).
Proof.
  induction l as [| s t IH]; simpl; [exact I |]. now apply insert_string_increasing.
Qed.

End NameOrder.

(** X2. [WrappingFrame.sort] only reorders the games of the frame: none is
    lost or repeated, afterwards every name is at most every later one,
    games of one name keep the order they had, and nothing else of the
    state changes. *)
Theorem sort_reorders_by_name :
  forall st : App,
    exists gs,
      sort st = (Ok tt, with_games gs st)
      /\ Permutation (games st) gs
      /\ sorted_by_name gs
      /\ forall n, filter (named n) gs = filter (named n) (games st).
Proof.
  intros st. exists (sort_games (games st)). repeat split.
  - apply sort_games_perm.
  - apply sort_games_sorted.
  - intros n. apply sort_games_stable.
Qed.

(** ** Rebuilding the catalog *)

Section Rebuild.

Variable w : Env.

Lemma with_games_same (st : App) : with_games (games st) st = st.
Proof. now destruct st. Qed.

Lemma for_each_app {A : Type} (l1 l2 : list A) (body : A -> M unit) (st : App) :
  for_each (l1 ++ l2) body st
  = (for_each l1 body ;; for_each l2 body)%stmt st.
Proof.
  revert st. induction l1 as [| x l1 IH]; intros st; simpl.
  - reflexivity.
  - unfold bind in *. destruct (body x st) as [[[] | e] st1]; [apply IH | reflexivity].
Qed.

(** Making the games of one emulator reads the disk and only adds games
    to the frame: what it returns and what it adds depend on the disk
    alone. *)
Lemma for_each_Game_init_frame (d : Os.node) (emu : Emulator) (found : list string) :
  exists (r : result unit) (gs : list Game), forall st,
    disk st = d ->
    for_each found (fun game => Game_init w game emu) st
    = (r, with_games (games st ++ gs) st).
Proof.
  induction found as [| n found IH].
  - exists (Ok tt), []. intros st _. simpl. unfold ret.
    now rewrite app_nil_r, with_games_same.
  - destruct IH as (r & gs & IH).
    destruct (load_image w d n emu) as [[] | x] eqn:Ei.
    + exists r, (new_Game w n emu :: gs). intros st Hd. simpl.
      unfold bind at 1. unfold Game_init, bind, modify.
      change (disk (with_games (games st ++ [new_Game w n emu]) st)) with (disk st).
      rewrite Hd, Ei, IH by exact Hd.
      unfold with_games. simpl. now rewrite <- app_assoc.
    + exists (Raise x), [new_Game w n emu]. intros st Hd. simpl.
      unfold bind at 1. unfold Game_init, bind, modify.
      change (disk (with_games (games st ++ [new_Game w n emu]) st)) with (disk st).
      now rewrite Hd, Ei.
Qed.

(** The loops of [load_games] read the disk and only add games to the
    frame: what they return and what they add depend on the disk alone. *)
Lemma load_from_frame (d : Os.node) (registry : list Emulator) :
  exists r gs, forall st,
    disk st = d ->
    load_from w registry st = (r, with_games (games st ++ gs) st).
Proof.
  unfold load_from. induction registry as [| e rest IH].
  - exists (Ok tt), []. intros st _. simpl. unfold ret.
    now rewrite app_nil_r, with_games_same.
  - destruct IH as (r & gs & IH).
    destruct (Os.listdir (getcwd w) d (id e)) as [listing | x] eqn:El.
    + destruct (for_each_Game_init_frame d e (keep_games (id e) listing))
        as (r1 & gs1 & H1).
      destruct r1 as [[] | x1].
      * exists r, (gs1 ++ gs). intros st Hd. simpl.
        unfold bind at 1. unfold bind at 1. unfold listdir, bind, os_listdir, ret.
        rewrite Hd, El, (H1 st Hd), IH by exact Hd.
        unfold with_games. simpl. now rewrite app_assoc.
      * exists (Raise x1), gs1. intros st Hd. simpl.
        unfold bind at 1. unfold bind at 1. unfold listdir, bind, os_listdir, ret.
        now rewrite Hd, El, (H1 st Hd).
    + exists (Raise x), []. intros st Hd. simpl.
      unfold bind at 1. unfold bind at 1. unfold listdir, bind, os_listdir.
      rewrite Hd, El. now rewrite app_nil_r, with_games_same.
Qed.

(** [load_games] in the same terms: sorted when the loops return, as far
    as they came when they raise. *)
Lemma load_games_of_frame (d : Os.node) (registry : list Emulator) :
  exists (r : result unit) (gs : list Game), forall st,
    disk st = d ->
    load_games_of w registry st
    = match r with
      | Ok _ => (Ok tt, with_games (sort_games gs) st)
      | Raise x => (Raise x, with_games gs st)
      end.
Proof.
  destruct (load_from_frame d registry) as (r & gs & H).
  exists r, gs. intros st Hd.
  unfold load_games_of, bind, clear, modify.
  rewrite (H (with_games [] st) Hd).
  destruct r as [[] | x]; reflexivity.
Qed.

End Rebuild.

(** X3. A rebuild that returns leaves the catalog in order of name, each
    name at most every later one, and changes nothing but the catalog. *)
Theorem load_games_sorted :
  forall (w : Env) (st st' : App),
    load_games w st = (Ok tt, st') ->
    sorted_by_name (games st') /\ st' = with_games (games st') st.
Proof.
  intros w st st' H.
  destruct (load_games_of_frame w (disk st) ALL) as (r & gs & Hf).
  unfold load_games in H. rewrite (Hf st eq_refl) in H.
  destruct r as [[] | x]; [| discriminate].
  injection H as <-. split; [apply sort_games_sorted | reflexivity].
Qed.

Lemma load_games_sorted_witness :
  sorted_by_name (games (snd (load_games world_offline app0))).
Proof.
  exact (proj1 (load_games_sorted world_offline app0
                  (snd (load_games world_offline app0)) eq_refl)).
Defined.

(** X4. The rebuild is a full one: the catalog it leaves, and whether it
    raises, do not depend on the catalog held before, and rebuilding twice
    is rebuilding once. *)
Theorem load_games_from_scratch :
  forall (w : Env) (st : App) (previous : list Game),
    fst (load_games w (with_games previous st)) = fst (load_games w st)
    /\ games (snd (load_games w (with_games previous st))) = games (snd (load_games w st))
    /\ (load_games w ;; load_games w)%stmt st = load_games w st.
Proof.
  intros w st previous.
  destruct (load_games_of_frame w (disk st) ALL) as (r & gs & Hf).
  unfold load_games, bind.
  rewrite (Hf st eq_refl), (Hf (with_games previous st) eq_refl).
  destruct r as [[] | x]; simpl; repeat split.
  rewrite (Hf (with_games (sort_games gs) st) eq_refl). reflexivity.
Qed.

(** X5. When every [icon.png] on the disk is a picture and the directory
    of an emulator cannot be listed, while those of the emulators before it
    can, the rebuild raises what [os.listdir] raised and stops there: the
    frame holds the games of the emulators before it, in the order found,
    not sorted. *)
Theorem load_games_stops_at_unlisted :
  forall (w : Env) (st : App) (l1 l2 : list Emulator) (e : Emulator) (x : exn)
         (listing : Emulator -> list string),
    ALL = l1 ++ e :: l2 ->
    (forall e', In e' l1 ->
       Os.listdir (getcwd w) (disk st) (id e') = Ok (listing e')) ->
    icons_open w (disk st) ->
    Os.listdir (getcwd w) (disk st) (id e) = Raise x ->
    load_games w st
    = (Raise x,
       with_games
         (flat_map
            (fun e' => map (fun n => the_game w n e') (keep_games (id e') (listing e')))
            l1)
         st).
Proof.
  intros w st l1 l2 e x listing Hall Hl1 Hpic He.
  unfold load_games, load_games_of. rewrite Hall.
  unfold bind at 1. unfold clear, modify.
  unfold bind at 1. unfold load_from. rewrite for_each_app.
  unfold bind at 1.
  fold (load_from w l1).
  rewrite (load_from_ok w listing l1); [| exact Hl1 | exact Hpic].
  simpl. unfold bind at 1. unfold bind at 1.
  unfold listdir, bind, os_listdir. simpl. now rewrite He.
Qed.

Lemma load_games_stops_at_unlisted_witness :
  load_games world_offline scenario_app
  = (Raise FileNotFoundError,
     with_games [mkGame "Pokemon" MGBA "/opt/launcher/mgba/Pokemon/game.gba"]
       scenario_app).
Proof.
  refine (load_games_stops_at_unlisted world_offline scenario_app
            [MGBA] [MELONDS; AZAHAR] DOLPHIN FileNotFoundError
            (fun _ => ["Pokemon"; "mgba.config"]) eq_refl _ _ eq_refl).
  - intros e' [<- | []]. reflexivity.
  - simpl. repeat split; discriminate.
Defined.

(** ** Reading the installed version *)

Section Words.

Lemma split_on_first (sep : ascii) (a b : string) :
  contains sep a = false ->
  Py.split_on sep (a ++ String sep b) = a :: Py.split_on sep b.
Proof.
  induction a as [| c a IH]; simpl.
  - intros _. now rewrite Ascii.eqb_refl.
  - intros H. apply orb_false_iff in H. destruct H as [Hc Ha].
    rewrite Hc, (IH Ha). reflexivity.
Qed.

Lemma split_on_none (sep : ascii) (a : string) :
  contains sep a = false -> Py.split_on sep a = [a].
Proof.
  induction a as [| c a IH]; simpl; [reflexivity |].
  intros H. apply orb_false_iff in H. destruct H as [Hc Ha].
  rewrite Hc, (IH Ha). reflexivity.
Qed.

Lemma graphic_no_space (c : ascii) :
  graphic c = true ->
  Py.isspace c = false
  /\ (forall c2, Py.isspace2 c c2 = false)
  /\ (forall c2 c3, Py.isspace3 c c2 c3 = false).
Proof.
  unfold graphic, Py.isspace, Py.isspace2, Py.isspace3.
  rewrite andb_true_iff, !Nat.leb_le. intros [H1 H2].
  set (n := nat_of_ascii c) in *.
  assert (E194 : Nat.eqb n 194 = false) by (apply Nat.eqb_neq; lia).
  assert (E225 : Nat.eqb n 225 = false) by (apply Nat.eqb_neq; lia).
  assert (E226 : Nat.eqb n 226 = false) by (apply Nat.eqb_neq; lia).
  assert (E227 : Nat.eqb n 227 = false) by (apply Nat.eqb_neq; lia).
  assert (L13 : Nat.leb n 13 = false) by (apply Nat.leb_gt; lia).
  assert (L32 : Nat.leb n 32 = false) by (apply Nat.leb_gt; lia).
  repeat split; intros; cbv zeta; fold n;
    rewrite ?E194, ?E225, ?E226, ?E227, ?L13, ?L32, ?andb_false_r; reflexivity.
Qed.

(** A visible ASCII character joins the run being read. *)
Lemma split_runs_graphic (c : ascii) (s cur : string) :
  graphic c = true ->
  Py.split_runs (String c s) cur = Py.split_runs s (cur ++ String c "").
Proof.
  intros H. destruct (graphic_no_space c H) as (H1 & H2 & H3).
  destruct s as [| c2 [| c3 s3]]; simpl; rewrite ?H1, ?H2, ?H3; reflexivity.
Qed.

Lemma split_runs_word (wd rest : string) :
  forall cur,
    all_graphic wd = true ->
    Py.split_runs (wd ++ rest) cur = Py.split_runs rest (cur ++ wd).
Proof.
  induction wd as [| c wd IH]; intros cur H.
  - now rewrite append_empty.
  - simpl in H. apply andb_true_iff in H. destruct H as [Hc Hwd].
    change (String c wd ++ rest)%string with (String c (wd ++ rest)).
    rewrite (split_runs_graphic c _ cur Hc), (IH _ Hwd), append_assoc. reflexivity.
Qed.

Lemma is_word_spec (s : string) :
  is_word s = true -> s <> "" /\ all_graphic s = true.
Proof.
  unfold is_word. rewrite andb_true_iff, negb_true_iff, String.eqb_neq. tauto.
Qed.

(** Two words and what follows them, split. *)
Lemma split_two_words (w1 w2 tail : string) :
  is_word w1 = true -> is_word w2 = true ->
  (tail = "" \/ exists t, tail = String " " t) ->
  exists more, Py.split (w1 ++ " " ++ w2 ++ tail) = w1 :: w2 :: more.
Proof.
  intros H1 H2 Htail.
  apply is_word_spec in H1, H2. destruct H1 as [N1 G1], H2 as [N2 G2].
  apply String.eqb_neq in N1, N2.
  unfold Py.split. rewrite (split_runs_word w1 _ "" G1).
  change ("" ++ w1)%string with w1.
  change (" " ++ w2 ++ tail)%string with (String " " (w2 ++ tail)).
  assert (Hsp : forall rest cur, String.eqb cur "" = false ->
            Py.split_runs (String " " rest) cur = cur :: Py.split_runs rest "").
  { intros rest cur Hcur. simpl. now rewrite Hcur. }
  rewrite (Hsp _ w1 N1), (split_runs_word w2 tail "" G2).
  change ("" ++ w2)%string with w2.
  destruct Htail as [-> | [t ->]].
  - exists []. simpl. now rewrite N2.
  - exists (Py.split_runs t ""). now rewrite (Hsp t w2 N2).
Qed.

Lemma contains_append (c : ascii) (a b : string) :
  contains c (a ++ b) = contains c a || contains c b.
Proof.
  induction a as [| x a IH]; simpl; [reflexivity |].
  now rewrite IH, orb_assoc.
Qed.

Lemma word_one_line (s : string) : all_graphic s = true -> contains "010" s = false.
Proof.
  induction s as [| c s IH]; simpl; [reflexivity |].
  rewrite andb_true_iff. intros [Hc Hs]. rewrite (IH Hs), orb_false_r.
  apply Ascii.eqb_neq. intros E. rewrite E in Hc. discriminate Hc.
Qed.

End Words.

(** X6. When the first line that the melonds binary prints for [--help] is
    a word, a space, a second word and then nothing or a space and more, the
    installed version of melonds is that second word, whatever the lines
    after the first say (words are runs of visible ASCII characters). *)
Theorem melonds_version_second_word :
  forall (w : Env) (w1 w2 tail rest : string),
    is_word w1 = true -> is_word w2 = true ->
    (tail = "" \/ exists t, tail = String " " t) ->
    contains "010" tail = false ->
    (popen_read w (Path.abspath (getcwd w) "melonds/melonds" ++ " --help")
     = (w1 ++ " " ++ w2 ++ tail)%string
     \/ popen_read w (Path.abspath (getcwd w) "melonds/melonds" ++ " --help")
        = ((w1 ++ " " ++ w2 ++ tail) ++ String "010" rest)%string) ->
    installed_version w MELONDS = Ok w2.
Proof.
  intros w w1 w2 tail rest H1 H2 Htail Hnl Hout.
  assert (Hline : contains "010" (w1 ++ " " ++ w2 ++ tail) = false).
  { rewrite !contains_append, Hnl.
    rewrite (word_one_line w1 (proj2 (is_word_spec w1 H1))).
    rewrite (word_one_line w2 (proj2 (is_word_spec w2 H2))). reflexivity. }
  destruct (split_two_words w1 w2 tail H1 H2 Htail) as [more Hsplit].
  unfold installed_version. simpl cls. cbv iota.
  destruct Hout as [-> | ->].
  - rewrite (split_on_none "010" _ Hline). unfold Py.index, rbind. cbn [nth_error].
    now rewrite Hsplit.
  - rewrite (split_on_first "010" _ rest Hline). unfold Py.index, rbind. cbn [nth_error].
    now rewrite Hsplit.
Qed.

Lemma melonds_version_second_word_witness :
  installed_version world_help MELONDS = Ok "1.1.0".
Proof.
  refine (melonds_version_second_word world_help "melonDS" "1.1.0" " beta"
            "Usage: melonDS FILE" eq_refl eq_refl _ eq_refl _).
  - right. now exists "beta".
  - right. reflexivity.
Defined.

(** ** Choosing a source file *)

(** X7. When the source directory can be listed, [game_choice] offers its
    entries that are not zip or 7z archives, each as often as it is listed,
    in increasing order; the offer is never empty: with nothing to offer it
    is the single empty choice.  The state is left as it was. *)
Theorem game_choice_offers :
  forall (w : Env) (st : App) (listing : list string),
    Os.listdir (getcwd w) (disk st) "rom zips" = Ok listing ->
    let kept := filter (fun f => negb (is_archive f)) listing in
    exists choices,
      game_choice w st = (Ok choices, st)
      /\ choices <> []
      /\ increasing choices
      /\ (kept = [] -> choices = [""])
      /\ (kept <> [] -> Permutation kept choices).
Proof.
  intros w st listing Hl kept.
  unfold game_choice, bind, os_listdir. rewrite Hl. fold kept.
  assert (Hp := sorted_perm kept). assert (Hi := sorted_increasing kept).
  destruct (sorted kept) as [| g games] eqn:E.
  - exists [""]. repeat split; try discriminate.
    + constructor.
    + intros Hk. exfalso. apply Hk. now apply Permutation_nil, Permutation_sym.
  - exists (g :: games). repeat split; try discriminate; try apply Hi; auto.
    intros ->. apply Permutation_nil in Hp. discriminate Hp.
Qed.

Lemma game_choice_offers_witness :
  exists choices,
    game_choice world_offline app0 = (Ok choices, app0)
    /\ Permutation ["zelda.gba"; "notes.txt"] choices.
Proof.
  destruct (game_choice_offers world_offline app0 ["zelda.gba"; "notes.txt"] eq_refl)
    as (choices & Hrun & _ & _ & _ & Hperm).
  exists choices. split; [exact Hrun |]. apply Hperm. discriminate.
Defined.

(** ** Source files without an extension *)

Lemma from_last_dot_none (s : string) :
  contains "." s = false -> Path.from_last_dot s = None.
Proof.
  induction s as [| c s IH]; simpl; [reflexivity |].
  intros H. apply orb_false_iff in H. destruct H as [Hc Hs].
  now rewrite (IH Hs), Hc.
Qed.

Lemma split_on_contains (c sep : ascii) (s : string) :
  contains c s = false ->
  Forall (fun piece => contains c piece = false) (Py.split_on sep s).
Proof.
  induction s as [| x s IH]; simpl.
  - intros _. now repeat constructor.
  - intros H. apply orb_false_iff in H. destruct H as [Hx Hs].
    specialize (IH Hs).
    destruct (Ascii.eqb x sep).
    + now constructor.
    + destruct (Py.split_on sep s) as [| h t]; simpl.
      * repeat constructor. simpl. now rewrite Hx.
      * inversion IH; subst. constructor; [| assumption].
        simpl. now rewrite Hx.
Qed.

Lemma last_Forall {A : Type} (P : A -> Prop) (l : list A) (d : A) :
  Forall P l -> P d -> P (last l d).
Proof.
  induction l as [| x l IH]; simpl; [auto |].
  intros H Hd. inversion H; subst.
  destruct l; [assumption | now apply IH].
Qed.

(** X8. A source file whose name has no dot has no extension, so
    [add_game] returns at once and changes nothing; the empty choice that
    [game_choice] offers for an empty source directory is such a name. *)
Theorem add_game_without_dot :
  forall (w : Env) (file name_input icon_input : string) (st : App),
    contains "." file = false ->
    add_game w file name_input icon_input st = (Ok tt, st).
Proof.
  intros w file name_input icon_input st H.
  assert (E : Path.splitext_ext file = "").
  { unfold Path.splitext_ext. rewrite from_last_dot_none; [reflexivity |].
    apply (last_Forall (fun piece => contains "." piece = false)); [| reflexivity].
    now apply split_on_contains. }
  unfold add_game. now rewrite E.
Qed.

Lemma add_game_without_dot_witness :
  add_game world_offline "" "Zelda" "http://icons/zelda.png" app0 = (Ok tt, app0).
Proof.
  exact (add_game_without_dot world_offline "" "Zelda" "http://icons/zelda.png" app0 eq_refl).
Defined.


(** ** Launching a game *)

(** X9. In a working directory of names, the command that runs a game of a
    registered emulator is the absolute path of the binary named after the
    emulator in the emulator's directory, a space, and the absolute path of
    the game file between double quotes. *)
Theorem run_cmd_shape :
  forall (w : Env) (e : Emulator) (n : string),
    Forall (fun s => Os.is_name s = true) (getcwd w) ->
    In e ALL -> Os.is_name n = true ->
    run_cmd w (new_Game w n e)
    = (("/" ++ Py.join "/" (getcwd w ++ [id e; id e])) ++ " " ++ dquote
       ++ ("/" ++ Py.join "/" (getcwd w ++ [id e; n; ("game." ++ ext e)%string]))
       ++ dquote)%string.
Proof.
  intros w e n Hcwd He Hn.
  assert (Hgame : path (new_Game w n e)
                  = ("/" ++ Py.join "/" (getcwd w ++ [id e; n; ("game." ++ ext e)%string]))%string).
  { destruct (registry_names e He) as (Ha & _ & Hg).
    apply (abspath_names (getcwd w) [id e; n; ("game." ++ ext e)%string]); auto;
      first [discriminate | now repeat constructor]. }
  unfold run_cmd. rewrite Hgame.
  assert (Hbin : forall a, Os.is_name a = true ->
            Path.abspath (getcwd w) (a ++ "/" ++ a)
            = ("/" ++ Py.join "/" (getcwd w ++ [a; a]))%string).
  { intros a Ha. apply (abspath_names (getcwd w) [a; a]); auto;
      first [discriminate | now repeat constructor]. }
  simpl in He.
  destruct He as [<- | [<- | [<- | [<- | []]]]]; unfold get_run_cmd;
    simpl emulator; simpl cls; cbv iota.
  - change (Path.abspath (getcwd w) "mgba/mgba")
      with (Path.abspath (getcwd w) ("mgba" ++ "/" ++ "mgba")).
    now rewrite (Hbin "mgba" eq_refl).
  - change (Path.abspath (getcwd w) "dolphin/dolphin")
      with (Path.abspath (getcwd w) ("dolphin" ++ "/" ++ "dolphin")).
    now rewrite (Hbin "dolphin" eq_refl).
  - change (Path.abspath (getcwd w) "melonds/melonds")
      with (Path.abspath (getcwd w) ("melonds" ++ "/" ++ "melonds")).
    now rewrite (Hbin "melonds" eq_refl).
  - change (Path.abspath (getcwd w) "azahar/azahar")
      with (Path.abspath (getcwd w) ("azahar" ++ "/" ++ "azahar")).
    now rewrite (Hbin "azahar" eq_refl).
Qed.

Lemma run_cmd_shape_witness :
  run_cmd world_offline (new_Game world_offline "Pokemon" MGBA)
  = ("/opt/launcher/mgba/mgba " ++ dquote ++ "/opt/launcher/mgba/Pokemon/game.gba"
     ++ dquote)%string.
Proof.
  refine (run_cmd_shape world_offline MGBA "Pokemon" _ _ eq_refl).
  - repeat constructor.
  - simpl. auto.
Defined.

(** X10. The path a catalog game carries names its game file: where the
    file [game.ext] is in the game's directory, the path resolves to it,
    from any working directory. *)
Theorem game_path_resolves :
  forall (w : Env) (cwd' : list string) (root m : Os.node) (e : Emulator) (n : string),
    Forall (fun s => Os.is_name s = true) (getcwd w) ->
    In e ALL -> Os.is_name n = true ->
    Os.get (getcwd w ++ [id e; n; ("game." ++ ext e)%string]) root = Some m ->
    exists p, Os.resolve cwd' root (path (new_Game w n e)) = Ok p
              /\ Os.get p root = Some m.
Proof.
  intros w cwd' root m e n Hcwd He Hn Hget.
  destruct (registry_names e He) as (Ha & _ & Hg).
  assert (Hnames : Forall (fun s => Os.is_name s = true)
                     (getcwd w ++ [id e; n; ("game." ++ ext e)%string])).
  { apply Forall_app. split; [exact Hcwd | now repeat constructor]. }
  exists (getcwd w ++ [id e; n; ("game." ++ ext e)%string]). split; [| exact Hget].
  assert (Hpath : path (new_Game w n e)
                  = ("/" ++ Py.join "/" (getcwd w ++ [id e; n; ("game." ++ ext e)%string]))%string).
  { apply (abspath_names (getcwd w) [id e; n; ("game." ++ ext e)%string]); auto;
      first [discriminate | now repeat constructor]. }
  rewrite Hpath. apply (resolve_absolute cwd' root m); auto.
  destruct (getcwd w); discriminate.
Qed.

Lemma game_path_resolves_witness :
  exists p, Os.resolve ["tmp"] disk0 (path (new_Game world_offline "Pokemon" MGBA)) = Ok p
            /\ Os.get p disk0 = Some (Os.File "pokemon rom").
Proof.
  refine (game_path_resolves world_offline ["tmp"] disk0 (Os.File "pokemon rom")
            MGBA "Pokemon" _ _ eq_refl eq_refl).
  - repeat constructor.
  - simpl. auto.
Defined.

(** ** More on adding a game *)

(** X11. A name that is taken, or left empty, stops [add_game] before
    anything is done: with the emulator's directory in place, a game name
    that already names an entry of it, or the empty name, makes [add_game]
    raise [FileExistsError] and leave the state, the source file included,
    as it was. *)
Theorem add_game_name_taken :
  forall (w : Env) (file name_input icon_input : string) (st : App) (emu : Emulator),
    from_ext (Py.tail (Path.splitext_ext file)) = Some emu ->
    (exists es, Os.get (getcwd w ++ [id emu]) (disk st) = Some (Os.Dir es)) ->
    (name_input = ""
     \/ (Os.is_name name_input = true
         /\ exists n, Os.get (getcwd w ++ [id emu; name_input]) (disk st) = Some n)) ->
    add_game w file name_input icon_input st = (Raise FileExistsError, st).
Proof.
  intros w file name_input icon_input st emu Hext [es Hdir] Hname.
  destruct (from_ext_In _ _ Hext) as [Hin _].
  destruct (registry_names emu Hin) as (Ha & _ & _).
  assert (Hcwd : exists es0, Os.get (getcwd w) (disk st) = Some (Os.Dir es0))
    by (eapply get_prefix_dir; [| exact Hdir]; discriminate).
  assert (Hmk : Os.mkdir (getcwd w) (disk st) (Path.join (id emu) [name_input])
                = Raise FileExistsError).
  { destruct Hname as [-> | [Hn [n Hget]]].
    - assert (Hj : Path.join (id emu) [""] = (id emu ++ "/")%string).
      { apply is_name_spec in Ha. destruct Ha as (Ha1 & Ha2 & _).
        unfold Path.join, Path.join2. simpl.
        apply String.eqb_neq in Ha2.
        now rewrite Ha2, (endswith_slash_no_slash _ Ha1). }
      assert (Hr : Os.resolve (getcwd w) (disk st) (id emu ++ "/")
                   = Ok (getcwd w ++ [id emu])).
      { pose proof Ha as Ha'. apply is_name_spec in Ha'.
        destruct Ha' as (Ha1 & Ha2 & Ha3 & Ha4).
        unfold Os.resolve, Os.components.
        rewrite (append_not_empty _ "/" Ha2), (startswith_slash_no_slash _ "/" Ha2 Ha1).
        rewrite (split_on_slash (id emu) "" Ha1).
        change (Py.split_on "/" "") with [""].
        change [id emu; ""] with ([id emu] ++ [""]).
        rewrite walk_app, (walk_names (disk st) [id emu] (getcwd w)).
        - reflexivity.
        - now repeat constructor.
        - exact (dirs_along_get (disk st) [id emu] (getcwd w) _ Hdir). }
      unfold Os.mkdir, rbind. now rewrite Hj, Hr, Hdir.
    - assert (Hr : Os.resolve (getcwd w) (disk st) (Path.join (id emu) [name_input])
                   = Ok (getcwd w ++ [id emu; name_input])).
      { rewrite (join_two _ _ Ha Hn). apply resolve_names.
        - discriminate.
        - now repeat constructor.
        - exact (dirs_along_get (disk st) [id emu; name_input] (getcwd w) _ Hget). }
      unfold Os.mkdir, rbind. now rewrite Hr, Hget. }
  unfold add_game. rewrite Hext.
  unfold bind at 1. unfold os_mkdir. now rewrite Hmk.
Qed.

Lemma add_game_name_taken_witness :
  add_game world_offline "zelda.gba" "Pokemon" "http://icons/zelda.png" app0
  = (Raise FileExistsError, app0).
Proof.
  refine (add_game_name_taken world_offline "zelda.gba" "Pokemon"
            "http://icons/zelda.png" app0 MGBA eq_refl _ _).
  - eexists. reflexivity.
  - right. split; [reflexivity |]. eexists. reflexivity.
Defined.

(** X12. A source file that is no longer in the source directory stops
    [add_game] after the directory of the game was made: with the
    emulator's directory and the source directory in place, a new name for
    the game and names that an entry can be given (no NUL, at most 255
    bytes), [add_game] raises [FileNotFoundError] and the disk is the one it
    started from with the new empty directory added. *)
Theorem add_game_source_missing :
  forall (w : Env) (file name_input icon_input : string) (st : App) (emu : Emulator),
    from_ext (Py.tail (Path.splitext_ext file)) = Some emu ->
    Os.is_name file = true -> Os.fits file = true ->
    Os.is_name name_input = true -> Os.fits name_input = true ->
    (exists es, Os.get (getcwd w ++ [id emu]) (disk st) = Some (Os.Dir es)) ->
    (exists es, Os.get (getcwd w ++ ["rom zips"]) (disk st) = Some (Os.Dir es)) ->
    Os.get (getcwd w ++ ["rom zips"; file]) (disk st) = None ->
    Os.get (getcwd w ++ [id emu; name_input]) (disk st) = None ->
    add_game w file name_input icon_input st
    = (Raise FileNotFoundError,
       with_disk (Os.put (getcwd w ++ [id emu; name_input]) (Os.Dir []) (disk st)) st).
Proof.
  intros w file name_input icon_input st emu
         Hext Hfile Hffits Hname Hnfits Hdir Hrz Hsrc Hnew.
  destruct (from_ext_In _ _ Hext) as [Hin _].
  destruct (registry_names emu Hin) as (Ha & Hne & _).
  set (C := getcwd w) in *.
  set (d1 := Os.put (C ++ [id emu; name_input]) (Os.Dir []) (disk st)).
  assert (Hmk : Os.mkdir C (disk st) (Path.join (id emu) [name_input]) = Ok d1)
    by (apply mkdir_new; assumption).
  assert (Hrz1 : exists es, Os.get (C ++ ["rom zips"]) d1 = Some (Os.Dir es)).
  { apply put_keeps_dir; [| exact Hrz]. apply is_prefix_longer. simpl. lia. }
  assert (Hs : Os.resolve C d1 ("rom zips/" ++ file) = Ok (C ++ ["rom zips"; file])).
  { destruct Hrz1 as [es Hrz1].
    apply (resolve_names C d1 ["rom zips"; file]).
    - discriminate.
    - now repeat constructor.
    - apply (dirs_along_last d1 ["rom zips"] file C).
      + exact (dirs_along_get d1 ["rom zips"] C _ Hrz1).
      + exists es. split; [exact Hrz1 | now right]. }
  assert (Hsrc1 : Os.get (C ++ ["rom zips"; file]) d1 = None).
  { unfold d1. rewrite get_put_beside; [exact Hsrc | |]; apply is_prefix_beside.
    - exact Hne.
    - intros E. apply Hne. symmetry. exact E. }
  unfold add_game. rewrite Hext.
  unfold bind at 1. unfold os_mkdir. fold C. rewrite Hmk.
  unfold bind at 1. unfold os_rename, Os.rename, rbind. fold C.
  change (disk (with_disk d1 st)) with d1. now rewrite Hs, Hsrc1.
Qed.

Lemma add_game_source_missing_witness :
  add_game world_offline "lost.gba" "Zelda" "http://icons/zelda.png" app0
  = (Raise FileNotFoundError,
     with_disk (Os.put ["opt"; "launcher"; "mgba"; "Zelda"] (Os.Dir []) disk0) app0).
Proof.
  refine (add_game_source_missing world_offline "lost.gba" "Zelda"
            "http://icons/zelda.png" app0 MGBA
            eq_refl eq_refl eq_refl eq_refl eq_refl _ _ eq_refl eq_refl);
    eexists; reflexivity.
Defined.

(** X13. The whole of [add_game] when nothing fails.  Take a source file
    of a registered extension that is in the source directory; a new name
    for the game that an entry can be given (a directory name without NUL,
    of at most 255 bytes) and that [listdir] does not leave out; a disk
    with the four emulator directories on which every [icon.png] is a
    picture; and an icon request that gives a picture that opens again once
    saved.  Then [add_game] returns; the source file has left the source
    directory and is the game file of the new directory, the picture is its
    [icon.png], nothing is printed, the rebuilt catalog has the game with its
    name, emulator and path, and the window is closed. *)
Theorem add_game_complete :
  forall (w : Env) (file name_input icon_input : string) (st : App)
         (emu : Emulator) (moved : Os.node)
         (j : option (list (string * string))) (img : string),
    from_ext (Py.tail (Path.splitext_ext file)) = Some emu ->
    Os.is_name file = true ->
    Os.is_name name_input = true ->
    Os.fits name_input = true ->
    is_reserved (id emu) name_input = false ->
    (forall e, In e ALL ->
       exists es, Os.get (getcwd w ++ [id e]) (disk st) = Some (Os.Dir es)) ->
    Os.get (getcwd w ++ ["rom zips"; file]) (disk st) = Some moved ->
    Os.get (getcwd w ++ [id emu; name_input]) (disk st) = None ->
    icons_open w (disk st) ->
    requests_get w icon_input = Response j (Some img) ->
    image_open w img = Ok tt ->
    exists st',
      add_game w file name_input icon_input st = (Ok tt, st')
      /\ Os.get (getcwd w ++ [id emu; name_input; ("game." ++ ext emu)%string]) (disk st')
         = Some moved
      /\ Os.get (getcwd w ++ [id emu; name_input; "icon.png"]) (disk st')
         = Some (Os.File img)
      /\ Os.get (getcwd w ++ ["rom zips"; file]) (disk st') = None
      /\ stdout st' = stdout st
      /\ In (the_game w name_input emu) (games st')
      /\ add_game_shown st' = false.
Proof.
  intros w file name_input icon_input st emu moved j img
         Hext Hfile Hname Hfits Hres Hdirs Hsrc Hnew Hpic Hicon Himg.
  destruct (from_ext_In _ _ Hext) as [Hin Hx].
  destruct (registry_names emu Hin) as (Ha & Hrz & Hg).
  destruct (registry_fits emu Hin) as (_ & Hgi).
  destruct (move_steps w (disk st) moved file name_input emu
              Hin Hfile Hname Hfits Hdirs Hsrc Hnew Hpic)
    as (Hmk & Hrn & Hgame2 & Hsrc2 & Hicon2 & Hdirs2 & Hpic2).
  set (C := getcwd w) in *.
  set (a := id emu) in *. set (b := name_input) in *.
  set (g := ("game." ++ ext emu)%string) in *.
  set (s := C ++ ["rom zips"; file]) in *.
  set (d1 := Os.put (C ++ [a; b]) (Os.Dir []) (disk st)) in *.
  set (d2 := Os.put (C ++ [a; b; g]) moved (Os.del s d1)) in *.
  set (d3 := Os.put (C ++ [a; b; "icon.png"]) (Os.File img) d2).
  assert (Hrza : "rom zips" <> a) by (intros E; apply Hrz; symmetry; exact E).
  assert (Hig : "icon.png" <> g) by (intros E; apply Hgi; symmetry; exact E).
  assert (Hsplit : forall x, C ++ [a; b; x] = (C ++ [a; b]) ++ [x])
    by (intros x; now rewrite <- app_assoc).
  assert (Hparent : exists es, Os.get (C ++ [a; b]) d2 = Some (Os.Dir es)).
  { pose proof Hgame2 as H. rewrite Hsplit in H. apply get_parent in H.
    destruct H as (es & H & _). eauto. }
  (* the disk after the icon is saved *)
  assert (Hwr : Os.write_file C d2 (Path.join a [b; "icon.png"]) img = Ok d3).
  { assert (Hr : Os.resolve C d2 (Path.join a [b; "icon.png"])
                 = Ok (C ++ [a; b; "icon.png"])).
    { rewrite (join_three a b "icon.png" Ha Hname eq_refl). apply resolve_names.
      - discriminate.
      - now repeat constructor.
      - destruct Hparent as [es Hparent].
        apply (dirs_along_last d2 [a; b] "icon.png" C).
        + exact (dirs_along_get d2 [a; b] C _ Hparent).
        + exists es. split; [exact Hparent | now right]. }
    destruct Hparent as [es Hparent].
    unfold Os.write_file, rbind. rewrite Hr, Hicon2.
    rewrite removelast_app by discriminate. simpl removelast. now rewrite Hparent. }
  assert (Hgame3 : Os.get (C ++ [a; b; g]) d3 = Some moved).
  { unfold d3. rewrite get_put_beside; [exact Hgame2 | |];
      rewrite !Hsplit; now apply is_prefix_beside. }
  assert (Hicon3 : Os.get (C ++ [a; b; "icon.png"]) d3 = Some (Os.File img)).
  { apply get_put_same.
    - destruct C; discriminate.
    - rewrite removelast_app by discriminate. exact Hparent. }
  assert (Hsrc3 : Os.get s d3 = None).
  { unfold d3. rewrite get_put_beside; [exact Hsrc2 | |];
      unfold s; now apply is_prefix_beside. }
  assert (Hdirs3 : forall e', In e' ALL ->
            exists es, Os.get (C ++ [id e']) d3 = Some (Os.Dir es)).
  { intros e' He'. unfold d3.
    apply put_keeps_dir; [apply is_prefix_longer; simpl; lia |].
    now apply Hdirs2. }
  assert (Hpic3 : icons_open w d3).
  { unfold d3. apply icons_put; [exact Hpic2 |].
    rewrite Hsplit, last_snoc. split; [| exact I].
    intros _ c [= <-]. exact Himg. }
  destruct (emulators_listed w d3 Hdirs3) as [listing Hlist].
  exists (mkApp d3 (sort_games (flat_map (games_of w listing) ALL))
                (stdout st) (emu_outdated st) false).
  split; [| repeat split; try assumption].
  - unfold add_game. rewrite Hext. fold a. rewrite <- Hx. fold g.
    unfold bind at 1. unfold os_mkdir. fold C. rewrite Hmk.
    unfold bind at 1. unfold os_rename. fold C.
    change (disk (with_disk d1 st)) with d1. rewrite Hrn.
    unfold bind at 1. unfold try_except, save_image_from. rewrite Hicon. fold C.
    change (disk (with_disk d2 (with_disk d1 st))) with d2. rewrite Hwr.
    unfold load_games, load_games_of.
    unfold bind at 1. unfold bind at 1. unfold bind at 1. unfold clear, modify.
    rewrite (load_from_ok w listing ALL); [reflexivity | exact Hlist | exact Hpic3].
  - exact (catalog_has_game w d3 moved listing emu b g Hin Hres Hgame3 Hlist).
Qed.

Lemma add_game_complete_witness :
  exists st',
    add_game (mkEnv cwd0 (fun _ => "") (fun _ => Response None (Some "png")) pictures)
      "zelda.gba" "Zelda" "http://icons/zelda.png" app0 = (Ok tt, st')
    /\ Os.get ["opt"; "launcher"; "mgba"; "Zelda"; "icon.png"] (disk st')
       = Some (Os.File "png")
    /\ Os.get ["opt"; "launcher"; "rom zips"; "zelda.gba"] (disk st') = None
    /\ In (mkGame "Zelda" MGBA "/opt/launcher/mgba/Zelda/game.gba") (games st').
Proof.
  destruct (add_game_complete
              (mkEnv cwd0 (fun _ => "") (fun _ => Response None (Some "png")) pictures)
              "zelda.gba" "Zelda" "http://icons/zelda.png" app0 MGBA
              (Os.File "zelda rom") None "png")
    as (st' & Hrun & _ & Hicon & Hsrc & _ & Hin & _); try reflexivity.
  - intros e He. simpl in He.
    destruct He as [<- | [<- | [<- | [<- | []]]]]; eexists; reflexivity.
  - apply disk0_icons_open.
  - exists st'. repeat split; assumption.
Defined.

(** ** Listing a directory *)

Lemma keep_games_sublist (app : string) (listing : list string) :
  sublist (keep_games app listing) listing.
Proof.
  induction listing as [| d l IH]; simpl; [constructor |].
  destruct (negb (is_reserved app d)); now constructor.
Qed.

Lemma keep_games_idempotent (app : string) (listing : list string) :
  keep_games app (keep_games app listing) = keep_games app listing.
Proof.
  induction listing as [| d l IH]; simpl; [reflexivity |].
  destruct (negb (is_reserved app d)) eqn:E; simpl; [| exact IH].
  now rewrite E, IH.
Qed.

(** X14. [App.listdir] raises what [os.listdir] raises; otherwise it
    returns the listing with the application's four names left out and the
    order kept, so listing again through it changes nothing.  The
    application is the directory's own name unless one is given.  The state
    is never changed. *)
Theorem listdir_filters_in_order :
  forall (w : Env) (dir_name : string) (app_name : option string) (st : App),
    let app := match app_name with None => dir_name | Some a => a end in
    match Os.listdir (getcwd w) (disk st) dir_name with
    | Raise x => listdir w dir_name app_name st = (Raise x, st)
    | Ok listing =>
        exists kept,
          listdir w dir_name app_name st = (Ok kept, st)
          /\ sublist kept listing
          /\ (forall d, In d kept -> ~ In d (reserved app))
          /\ (forall d, In d listing -> ~ In d (reserved app) -> In d kept)
          /\ keep_games app kept = kept
    end.
Proof.
  intros w dir_name app_name st app.
  unfold listdir, bind, os_listdir, ret. fold app.
  destruct (Os.listdir (getcwd w) (disk st) dir_name) as [listing | x]; [| reflexivity].
  exists (keep_games app listing). repeat split.
  - apply keep_games_sublist.
  - intros d Hd. now apply keep_games_In in Hd.
  - intros d Hd Hr. apply keep_games_In. now split.
  - apply keep_games_idempotent.
Qed.

(** X15. Games are not merged by name: when the directory of every
    emulator can be listed and every [icon.png] on the disk is a picture, the
    rebuild returns and the games of one name are all there, one for each
    emulator whose directory lists the name, in the order of the registry. *)
Theorem load_games_keeps_same_names :
  forall (w : Env) (st : App) (listing : Emulator -> list string) (n : string),
    (forall e, In e ALL ->
       Os.listdir (getcwd w) (disk st) (id e) = Ok (listing e)) ->
    icons_open w (disk st) ->
    exists st',
      load_games w st = (Ok tt, st')
      /\ filter (named n) (games st')
         = filter (named n)
             (flat_map
                (fun e => map (fun k => the_game w k e) (keep_games (id e) (listing e)))
                ALL).
Proof.
  intros w st listing n Hl Hpic.
  exists (with_games (sort_games (flat_map (games_of w listing) ALL)) st). split.
  - unfold load_games, load_games_of, bind, clear, modify.
    rewrite (load_from_ok w listing ALL); [reflexivity | exact Hl | exact Hpic].
  - apply sort_games_stable.
Qed.

Lemma load_games_keeps_same_names_witness :
  exists st',
    load_games world_offline
      (with_disk (Os.put ["opt"; "launcher"; "dolphin"; "Pokemon"] (Os.Dir []) disk0) app0)
    = (Ok tt, st')
    /\ filter (named "Pokemon") (games st')
       = [mkGame "Pokemon" MGBA "/opt/launcher/mgba/Pokemon/game.gba";
          mkGame "Pokemon" DOLPHIN "/opt/launcher/dolphin/Pokemon/game.rvz"].
Proof.
  refine (load_games_keeps_same_names world_offline
            (with_disk (Os.put ["opt"; "launcher"; "dolphin"; "Pokemon"] (Os.Dir []) disk0)
                       app0)
            (fun e => match cls e with
                      | __Mgba => ["mgba"; "mgba.config"; "Pokemon"]
                      | __Dolphin => ["dolphin"; "Pokemon"]
                      | _ => [id e]
                      end) "Pokemon" _ _).
  - intros e He. simpl in He.
    destruct He as [<- | [<- | [<- | [<- | []]]]]; reflexivity.
  - simpl. repeat split; discriminate.
Defined.
